(** * The CDN garbage collector of engine/cdn (cdn_gc.go)

    A shallow embedding of the three garbage-collector operations of the
    CDN service ([cleanItemToDelete], [cleanBuffer], [cleanWaitingItem]) and
    of the two timer loops that drive them ([itemPurge], [itemsGC]),
    together with models of the item registry's mark-to-delete operation
    and of the log streaming hub that the handler tests exercise.

    The operations of the packages [index] and [storage], the method
    [completeItem] and the [*sql.Tx] handle are not part of the embedded
    file: the collector is written over an interface ([Store]) that lists
    them with the signatures the calls in cdn_gc.go show, and a reference
    implementation of that interface is given separately. *)

From Stdlib Require Import List String ZArith Lia Bool Arith PeanoNat.
From Stdlib Require Import DecimalString FinFun Sorted.
Import ListNotations.

Set Implicit Arguments.

(* ================================================================== *)
(** ** Values shared by the packages *)
(* ================================================================== *)

Definition ItemID := string.
Definition UnitID := string.

(** Go's [error] values that travel through the collector. *)
Inductive error : Type :=
| ErrStore (what : string)
| ErrContext (what : string)
| WrapError (cause : error) (msg : string)
| WithStackErr (cause : error).

(** A call that returns [(x, err)]: [Ok x] stands for [err == nil]. *)
Inductive Result (A : Type) : Type :=
| Ok (a : A)
| Err (e : error).
Arguments Ok {A} a.
Arguments Err {A} e.

(** [index.StatusItemIncoming] and its sibling. *)
Inductive ItemStatus : Type := StatusItemIncoming | StatusItemCompleted.

Definition ItemStatus_eqb (a b : ItemStatus) : bool :=
  match a, b with
  | StatusItemIncoming, StatusItemIncoming => true
  | StatusItemCompleted, StatusItemCompleted => true
  | _, _ => false
  end.

(** [storage.ItemUnit]: item [iu_ItemID] has a copy in unit [iu_UnitID],
    last written at [iu_LastModified] (seconds). *)
Record ItemUnit : Type := mkItemUnit {
  iu_ItemID : ItemID;
  iu_UnitID : UnitID;
  iu_LastModified : Z
}.

(** The storages of [s.Units]: the loop of [cleanBuffer] only asks of a
    storage whether its dynamic type is [*cds.CDS], and its [ID()]. *)
Inductive Driver : Type := DriverCDS | DriverOther.

Record StorageUnit : Type := mkStorageUnit {
  sto_driver : Driver;
  sto_ID : UnitID
}.

Record RunningStorageUnits : Type := mkUnits {
  Buffer : UnitID;
  Storages : list StorageUnit
}.

Record Service : Type := mkService {
  Units : RunningStorageUnits
}.

(** The handle a query is issued on: [s.mustDBWithCtx(ctx)] or a
    transaction obtained from [Begin]. *)
Inductive SqlExecutor (Tx : Type) : Type :=
| ExecDB
| ExecTx (tx : Tx).
Arguments ExecDB {Tx}.
Arguments ExecTx {Tx} tx.

(* ================================================================== *)
(** ** The store interface *)
(* ================================================================== *)

(** Every operation takes the store and gives back a result and the store
    after the call. *)
Class Store (D Tx : Type) : Type := {
  LoadItemIDsToDelete :
    SqlExecutor Tx -> Z -> D -> Result (list ItemID) * D;
  DeleteItemByIDs :
    SqlExecutor Tx -> list ItemID -> D -> Result unit * D;
  LoadAllItemsIDInBufferAndAllUnitsExceptCDS :
    SqlExecutor Tx -> UnitID -> D -> Result (list ItemID) * D;
  DeleteItemsUnit :
    SqlExecutor Tx -> UnitID -> list ItemID -> D -> Result unit * D;
  LoadOldItemUnitByItemStatusAndDuration :
    SqlExecutor Tx -> ItemStatus -> Z -> D -> Result (list ItemUnit) * D;
  completeItem :
    Tx -> ItemUnit -> D -> Result unit * D;
  Begin : D -> Result Tx * D;
  Commit : Tx -> D -> Result unit * D;
  Rollback : Tx -> D -> Result unit * D
}.

(* ================================================================== *)
(** ** The collector's world *)
(* ================================================================== *)

Inductive Handle : Type := OnDB | OnTx.

Inductive Op : Type := OpCleanItemToDelete | OpCleanBuffer | OpCleanWaitingItem.

(** The calls the collector makes, in the order it makes them. *)
Inductive Call : Type :=
| Enter (op : Op)
| CallLoadItemIDsToDelete (h : Handle) (size : Z)
| CallDeleteItemByIDs (h : Handle) (ids : list ItemID)
| CallLoadReplicated (h : Handle) (cdsBackendID : UnitID)
| CallDeleteItemsUnit (h : Handle) (unit : UnitID) (ids : list ItemID)
| CallLoadOld (h : Handle) (status : ItemStatus) (duration : Z)
| CallCompleteItem (iu : ItemUnit)
| CallBegin
| CallCommit
| CallRollback
| CallNewTicker (d : Z)
| CallTickerStop.

Inductive LogEntry : Type :=
| LogError (format : string) (e : error)
| LogErrorWithFields (e : error)
| LogDebug (format : string) (n : Z).

Record World (D : Type) : Type := mkWorld {
  store : D;
  logs : list LogEntry;
  metricsItemCompletedByGC : Z;
  calls : list Call
}.

Definition M (D A : Type) : Type := World D -> Result A * World D.

Definition ret {D A} (a : A) : M D A := fun w => (Ok a, w).

Definition fail {D A} (e : error) : M D A := fun w => (Err e, w).

Definition bind {D A B} (c : M D A) (k : A -> M D B) : M D B :=
  fun w =>
    match c w with
    | (Ok a, w') => k a w'
    | (Err e, w') => (Err e, w')
    end.

Declare Scope gc_scope.
Delimit Scope gc_scope with gc.
Notation "x <- c ;; k" := (bind c (fun x => k))
  (at level 61, c at next level, right associativity) : gc_scope.
Notation "c ;;; k" := (bind c (fun _ => k))
  (at level 61, right associativity) : gc_scope.

(** A call into the store: the call is recorded, then made. *)
Definition call {D A} (c : Call) (f : D -> Result A * D) : M D A :=
  fun w =>
    let (r, d) := f (store w) in
    (r, mkWorld d (logs w) (metricsItemCompletedByGC w) (calls w ++ [c])).

Definition enter {D} (op : Op) : M D unit :=
  fun w =>
    (Ok tt, mkWorld (store w) (logs w) (metricsItemCompletedByGC w)
                    (calls w ++ [Enter op])).

Definition record {D} (c : Call) (w : World D) : World D :=
  mkWorld (store w) (logs w) (metricsItemCompletedByGC w) (calls w ++ [c]).

Definition log {D} (l : LogEntry) (w : World D) : World D :=
  mkWorld (store w) (logs w ++ [l]) (metricsItemCompletedByGC w) (calls w).

Definition logM {D} (l : LogEntry) : M D unit := fun w => (Ok tt, log l w).

(** [telemetry.Record(ctx, metricsItemCompletedByGC, 1)] *)
Definition telemetry_Record {D} (n : Z) : M D unit :=
  fun w =>
    (Ok tt, mkWorld (store w) (logs w)
                    (metricsItemCompletedByGC w + n)%Z (calls w)).

(** [sdk.WrapError(err, msg)] on the error branch of a call. *)
Definition wrapping {D A} (msg : string) (c : M D A) : M D A :=
  fun w =>
    match c w with
    | (Ok a, w') => (Ok a, w')
    | (Err e, w') => (Err (WrapError e msg), w')
    end.

(** [sdk.WithStack(err)]: nil stays nil. *)
Definition WithStack {D A} (c : M D A) : M D A :=
  fun w =>
    match c w with
    | (Ok a, w') => (Ok a, w')
    | (Err e, w') => (Err (WithStackErr e), w')
    end.

(** [defer f()]: [f] runs when the body has returned, whatever it
    returned, and its own result is dropped. *)
Definition defer {D A B} (f : M D B) (body : M D A) : M D A :=
  fun w =>
    let (r, w') := body w in
    let (_, w'') := f w' in
    (r, w'').

(** [_ = f()] *)
Definition ignore {D B} (f : M D B) : M D unit :=
  fun w => let (_, w') := f w in (Ok tt, w').

(* ================================================================== *)
(** ** cdn_gc.go *)
(* ================================================================== *)

Local Open Scope Z_scope.

Definition ItemLogGC : Z := 24 * 3600.

(** [time.Duration] in nanoseconds, and a ticker by its period. *)
Definition Second : Z := 1000000000.
Definition Minute : Z := 60 * Second.

Record Ticker : Type := NewTicker { period : Z }.

Definition tickPurge : Ticker := NewTicker (1 * Minute).
Definition tickGC : Ticker := NewTicker (1 * Minute).

Section Collector.

Context {D Tx : Type} `{St : Store D Tx}.

Local Open Scope gc_scope.

(** The body of [cleanItemToDelete] is an unbounded [for]: the embedding
    counts the iterations it may still start, and [None] says the count ran
    out before the loop returned. *)
Fixpoint cleanItemToDelete_loop (fuel : nat) (w : World D)
  : option (Result unit * World D) :=
  match fuel with
  | O => None
  | S fuel' =>
    match call (CallLoadItemIDsToDelete OnDB 100)
               (LoadItemIDsToDelete ExecDB 100) w with
    | (Err err, w1) => Some (Err err, w1)
    | (Ok ids, w1) =>
      if (List.length ids =? 0)%nat then Some (Ok tt, w1)
      else
        match call (CallDeleteItemByIDs OnDB ids)
                   (DeleteItemByIDs ExecDB ids) w1 with
        | (Err err, w2) => Some (Err err, w2)
        | (Ok _, w2) => cleanItemToDelete_loop fuel' w2
        end
    end
  end.

Definition cleanItemToDelete (fuel : nat) (s : Service) (w : World D)
  : option (Result unit * World D) :=
  cleanItemToDelete_loop fuel (snd (enter OpCleanItemToDelete w)).

(** The [for _, sto := range s.Units.Storages] of [cleanBuffer]: the ID of
    the first storage that is a [*cds.CDS], the empty string when there is
    none. *)
Fixpoint findCDSBackendID (stos : list StorageUnit) : UnitID :=
  match stos with
  | [] => EmptyString
  | sto :: rest =>
    match sto_driver sto with
    | DriverCDS => sto_ID sto
    | DriverOther => findCDSBackendID rest
    end
  end.

Definition cleanBuffer (s : Service) : M D unit :=
  enter OpCleanBuffer ;;;
  let cdsBackendID := findCDSBackendID (Storages (Units s)) in
  if String.eqb cdsBackendID EmptyString then ret tt
  else
    itemIDs <- call (CallLoadReplicated OnDB cdsBackendID)
                 (LoadAllItemsIDInBufferAndAllUnitsExceptCDS ExecDB cdsBackendID) ;;
    tx <- wrapping "unable to start transaction" (call CallBegin Begin) ;;
    defer (call CallRollback (Rollback tx))
      (call (CallDeleteItemsUnit OnTx (Buffer (Units s)) itemIDs)
            (DeleteItemsUnit (ExecTx tx) (Buffer (Units s)) itemIDs) ;;;
       WithStack (call CallCommit (Commit tx))).

(** The [for _, itemUnit := range itemUnits] of [cleanWaitingItem]. *)
Fixpoint cleanWaitingItem_range (itemUnits : list ItemUnit) : M D unit :=
  match itemUnits with
  | [] => ret tt
  | itemUnit :: rest =>
    tx <- wrapping "unable to start transaction" (call CallBegin Begin) ;;
    (fun w =>
       match call (CallCompleteItem itemUnit) (completeItem tx itemUnit) w with
       | (Err err, w1) =>
         (ignore (call CallRollback (Rollback tx)) ;;; fail err) w1
       | (Ok _, w1) =>
         match call CallCommit (Commit tx) w1 with
         | (Err err, w2) =>
           (ignore (call CallRollback (Rollback tx)) ;;; fail err) w2
         | (Ok _, w2) =>
           (telemetry_Record 1 ;;; cleanWaitingItem_range rest) w2
         end
       end)
  end.

Definition cleanWaitingItem (s : Service) : M D unit :=
  enter OpCleanWaitingItem ;;;
  itemUnits <- call (CallLoadOld OnDB StatusItemIncoming ItemLogGC)
                 (LoadOldItemUnitByItemStatusAndDuration
                    ExecDB StatusItemIncoming ItemLogGC) ;;
  logM (LogDebug "cdn:CompleteWaitingItems: %d items to complete"
                 (Z.of_nat (List.length itemUnits))) ;;;
  cleanWaitingItem_range itemUnits.

(** *** The timer loops

    A [select] of the loops receives either from [ctx.Done()] or from the
    ticker's channel.  A run of a loop is given by the cases its successive
    [select]s take; [Selecting] says the loop is blocked in [select] once
    they are used up, [Returned] that the function has returned. *)
Inductive SelectCase : Type :=
| CtxDone (ctxErr : option error)
| TickC.

Inductive LoopState : Type := Returned | Selecting.

(** [if err := f(ctx); err != nil { log.ErrorWithFields(...) }] *)
Definition logged (rw : Result unit * World D) : World D :=
  match rw with
  | (Ok _, w) => w
  | (Err err, w) => log (LogErrorWithFields err) w
  end.

Definition ctxDone (format : string) (ctxErr : option error) (w : World D)
  : World D :=
  match ctxErr with
  | Some err => log (LogError format err) w
  | None => w
  end.

Fixpoint itemPurge_for (fuel : nat) (s : Service) (sel : list SelectCase)
    (w : World D) : option (LoopState * World D) :=
  match sel with
  | [] => Some (Selecting, w)
  | CtxDone ctxErr :: _ => Some (Returned, ctxDone "cdn:ItemPurge: %v" ctxErr w)
  | TickC :: sel' =>
    match cleanItemToDelete fuel s w with
    | None => None
    | Some rw => itemPurge_for fuel s sel' (logged rw)
    end
  end.

(** [defer t.Stop()] of a loop that has returned. *)
Definition stop_on_return (lw : LoopState * World D) : LoopState * World D :=
  match lw with
  | (Returned, w) => (Returned, record CallTickerStop w)
  | (Selecting, w) => (Selecting, w)
  end.

Definition itemPurge (fuel : nat) (s : Service) (sel : list SelectCase)
    (w : World D) : option (LoopState * World D) :=
  option_map stop_on_return
    (itemPurge_for fuel s sel (record (CallNewTicker (period tickPurge)) w)).

Fixpoint itemsGC_for (s : Service) (sel : list SelectCase) (w : World D)
  : LoopState * World D :=
  match sel with
  | [] => (Selecting, w)
  | CtxDone ctxErr :: _ =>
    (Returned, ctxDone "cdn:CompleteWaitingItems: %v" ctxErr w)
  | TickC :: sel' =>
    let w1 := logged (cleanBuffer s w) in
    let w2 := logged (cleanWaitingItem s w1) in
    itemsGC_for s sel' w2
  end.

Definition itemsGC (s : Service) (sel : list SelectCase) (w : World D)
  : LoopState * World D :=
  stop_on_return
    (itemsGC_for s sel (record (CallNewTicker (period tickGC)) w)).

End Collector.

(* ================================================================== *)
(** ** The item registry and the unit manager: a reference store *)
(* ================================================================== *)

(** The coordinates of [sdk.CDNLogAPIRef] that the mark-to-delete selector
    reads. *)
Record CDNLogAPIRef : Type := mkAPIRef {
  RunID : Z;
  WorkflowID : Z
}.

Record CDNItem : Type := mkItem {
  ID : ItemID;
  APIRef : CDNLogAPIRef;
  Status : ItemStatus;
  ToDelete : bool
}.

Inductive UnitKind : Type := KindBuffer | KindPermanent.

Record UnitRow : Type := mkUnitRow {
  unit_ID : UnitID;
  unit_kind : UnitKind
}.

(** The relational state: item rows, membership rows, the registered
    units, and the (item, line number) rows that item deletion cascades
    to. *)
Record DB : Type := mkDB {
  db_items : list CDNItem;
  db_item_units : list ItemUnit;
  db_units : list UnitRow;
  db_lines : list (ItemID * Z)
}.

Definition mem (x : string) (l : list string) : bool :=
  existsb (String.eqb x) l.

Definition is_buffer (u : UnitRow) : bool :=
  match unit_kind u with KindBuffer => true | KindPermanent => false end.

Definition is_permanent (u : UnitRow) : bool :=
  match unit_kind u with KindBuffer => false | KindPermanent => true end.

(** Item [i] has a membership row for unit [u]. *)
Definition in_unit (db : DB) (i : ItemID) (u : UnitID) : bool :=
  existsb (fun iu => String.eqb (iu_ItemID iu) i && String.eqb (iu_UnitID iu) u)
          (db_item_units db).

Definition in_buffer (db : DB) (i : ItemID) : bool :=
  existsb (fun u => is_buffer u && in_unit db i (unit_ID u)) (db_units db).

Definition in_every_permanent_except (db : DB) (legacy : UnitID) (i : ItemID)
  : bool :=
  forallb (fun u => negb (is_permanent u)
                    || String.eqb (unit_ID u) legacy
                    || in_unit db i (unit_ID u))
          (db_units db).

Definition flagged (db : DB) : list ItemID :=
  map ID (filter ToDelete (db_items db)).

(** Modelled from the spec: [index.LoadItemIDsToDelete] is not part of the
    embedded file.  [loadIDsToDelete(limit)] returns up to [limit] item ids
    with [toDelete = true]. *)
Definition loadIDsToDelete (limit : Z) (db : DB) : list ItemID :=
  firstn (Z.to_nat limit) (flagged db).

(** Modelled from the spec: [index.DeleteItemByIDs] is not part of the
    embedded file.  [deleteByIDs(ids)] hard-deletes item rows and cascades
    to Line and ItemUnit records for those ids. *)
Definition deleteByIDs (ids : list ItemID) (db : DB) : DB :=
  mkDB (filter (fun it => negb (mem (ID it) ids)) (db_items db))
       (filter (fun iu => negb (mem (iu_ItemID iu) ids)) (db_item_units db))
       (db_units db)
       (filter (fun l => negb (mem (fst l) ids)) (db_lines db)).

(** Modelled from the spec:
    [storage.LoadAllItemsIDInBufferAndAllUnitsExceptCDS] is not part of the
    embedded file.  [listBufferedAndReplicatedExceptLegacy] returns ids
    present in the Buffer unit and present in every registered Permanent
    unit other than the legacy one. *)
Definition listBufferedAndReplicatedExceptLegacy (legacy : UnitID) (db : DB)
  : list ItemID :=
  map ID (filter (fun it => in_buffer db (ID it)
                            && in_every_permanent_except db legacy (ID it))
                 (db_items db)).

(** Modelled from the spec: [storage.DeleteItemsUnit] is not part of the
    embedded file.  [deleteFromUnit(unitID, itemIDs)] removes ItemUnit rows
    for the given unit/items. *)
Definition deleteFromUnit (u : UnitID) (ids : list ItemID) (db : DB) : DB :=
  mkDB (db_items db)
       (filter (fun iu => negb (String.eqb (iu_UnitID iu) u
                                && mem (iu_ItemID iu) ids))
               (db_item_units db))
       (db_units db)
       (db_lines db).

Definition has_status (db : DB) (i : ItemID) (st : ItemStatus) : bool :=
  existsb (fun it => String.eqb (ID it) i && ItemStatus_eqb (Status it) st)
          (db_items db).

(** Modelled from the spec:
    [storage.LoadOldItemUnitByItemStatusAndDuration] is not part of the
    embedded file.  [loadStaleIncoming(status, maxAgeSeconds)] returns
    ItemUnit records whose item is in the given status and whose last-write
    age exceeds the threshold; [now] is the store's clock, in seconds. *)
Definition loadStaleIncoming (st : ItemStatus) (maxAgeSeconds now : Z) (db : DB)
  : list ItemUnit :=
  filter (fun iu => has_status db (iu_ItemID iu) st
                    && (maxAgeSeconds <? now - iu_LastModified iu))
         (db_item_units db).

Definition complete (it : CDNItem) : CDNItem :=
  mkItem (ID it) (APIRef it) StatusItemCompleted (ToDelete it).

(** Modelled from the spec: the method [completeItem] is not part of the
    embedded file.  [completeItem(item)] transitions [status] to
    [Completed]; a no-op if already [Completed]. *)
Definition completeItemByID (i : ItemID) (db : DB) : DB :=
  mkDB (map (fun it => if String.eqb (ID it) i then complete it else it)
            (db_items db))
       (db_item_units db)
       (db_units db)
       (db_lines db).

(** *** Transactions and failures

    A transaction handle names a list of writes that wait for [Commit];
    [Commit] applies them to the committed rows in one step and [Rollback]
    drops them.  A query on a transaction sees the committed rows with the
    transaction's own writes applied. *)
Inductive Write : Type :=
| WDeleteItemByIDs (ids : list ItemID)
| WDeleteItemsUnit (u : UnitID) (ids : list ItemID)
| WCompleteItem (i : ItemID).

Definition apply_write (wr : Write) (db : DB) : DB :=
  match wr with
  | WDeleteItemByIDs ids => deleteByIDs ids db
  | WDeleteItemsUnit u ids => deleteFromUnit u ids db
  | WCompleteItem i => completeItemByID i db
  end.

Definition apply_writes (ws : list Write) (db : DB) : DB :=
  fold_left (fun acc wr => apply_write wr acc) ws db.

(** [faults] is the schedule of transient store errors: each fallible call
    takes the head, and fails when it is [true]; when the schedule is
    used up no call fails. *)
Record RefStore : Type := mkRef {
  committed : DB;
  pending : list (nat * list Write);
  next_tx : nat;
  faults : list bool;
  now : Z
}.

Fixpoint pending_of (tx : nat) (p : list (nat * list Write))
  : option (list Write) :=
  match p with
  | [] => None
  | (t, ws) :: rest => if Nat.eqb t tx then Some ws else pending_of tx rest
  end.

Fixpoint pending_add (tx : nat) (wr : Write) (p : list (nat * list Write))
  : list (nat * list Write) :=
  match p with
  | [] => []
  | (t, ws) :: rest =>
    if Nat.eqb t tx then (t, ws ++ [wr]) :: rest
    else (t, ws) :: pending_add tx wr rest
  end.

Fixpoint pending_drop (tx : nat) (p : list (nat * list Write))
  : list (nat * list Write) :=
  match p with
  | [] => []
  | (t, ws) :: rest =>
    if Nat.eqb t tx then rest else (t, ws) :: pending_drop tx rest
  end.

Definition take_fault (d : RefStore) : bool * RefStore :=
  match faults d with
  | [] => (false, d)
  | b :: fs => (b, mkRef (committed d) (pending d) (next_tx d) fs (now d))
  end.

Definition ErrTxDone : error :=
  ErrStore "sql: transaction has already been committed or rolled back".

Definition view (ex : SqlExecutor nat) (d : RefStore) : DB :=
  match ex with
  | ExecDB => committed d
  | ExecTx tx =>
    match pending_of tx (pending d) with
    | Some ws => apply_writes ws (committed d)
    | None => committed d
    end
  end.

Definition ref_query {A} (what : string) (ex : SqlExecutor nat) (q : DB -> A)
    (d : RefStore) : Result A * RefStore :=
  let (failed, d') := take_fault d in
  if failed then (Err (ErrStore what), d') else (Ok (q (view ex d')), d').

Definition ref_exec (what : string) (ex : SqlExecutor nat) (wr : Write)
    (d : RefStore) : Result unit * RefStore :=
  let (failed, d') := take_fault d in
  if failed then (Err (ErrStore what), d')
  else
    match ex with
    | ExecDB =>
      (Ok tt, mkRef (apply_write wr (committed d')) (pending d') (next_tx d')
                    (faults d') (now d'))
    | ExecTx tx =>
      match pending_of tx (pending d') with
      | Some _ =>
        (Ok tt, mkRef (committed d') (pending_add tx wr (pending d'))
                      (next_tx d') (faults d') (now d'))
      | None => (Err ErrTxDone, d')
      end
    end.

Definition ref_Begin (d : RefStore) : Result nat * RefStore :=
  let (failed, d') := take_fault d in
  if failed then (Err (ErrStore "begin"), d')
  else
    (Ok (next_tx d'),
     mkRef (committed d') ((next_tx d', []) :: pending d') (S (next_tx d'))
           (faults d') (now d')).

Definition ref_Commit (tx : nat) (d : RefStore) : Result unit * RefStore :=
  match pending_of tx (pending d) with
  | None => (Err ErrTxDone, d)
  | Some ws =>
    let (failed, d') := take_fault d in
    if failed then (Err (ErrStore "commit"), d')
    else
      (Ok tt, mkRef (apply_writes ws (committed d'))
                    (pending_drop tx (pending d')) (next_tx d')
                    (faults d') (now d'))
  end.

Definition ref_Rollback (tx : nat) (d : RefStore) : Result unit * RefStore :=
  match pending_of tx (pending d) with
  | None => (Err ErrTxDone, d)
  | Some _ =>
    (Ok tt, mkRef (committed d) (pending_drop tx (pending d)) (next_tx d)
                  (faults d) (now d))
  end.

#[export] Instance RefStore_Store : Store RefStore nat := {
  LoadItemIDsToDelete ex size :=
    ref_query "LoadItemIDsToDelete" ex (loadIDsToDelete size);
  DeleteItemByIDs ex ids :=
    ref_exec "DeleteItemByIDs" ex (WDeleteItemByIDs ids);
  LoadAllItemsIDInBufferAndAllUnitsExceptCDS ex cdsBackendID :=
    ref_query "LoadAllItemsIDInBufferAndAllUnitsExceptCDS" ex
              (listBufferedAndReplicatedExceptLegacy cdsBackendID);
  DeleteItemsUnit ex u ids :=
    ref_exec "DeleteItemsUnit" ex (WDeleteItemsUnit u ids);
  LoadOldItemUnitByItemStatusAndDuration ex st duration := fun d =>
    ref_query "LoadOldItemUnitByItemStatusAndDuration" ex
              (loadStaleIncoming st duration (now d)) d;
  completeItem tx itemUnit :=
    ref_exec "completeItem" (ExecTx tx) (WCompleteItem (iu_ItemID itemUnit));
  Begin := ref_Begin;
  Commit := ref_Commit;
  Rollback := ref_Rollback
}.

Definition world_of (d : RefStore) : World RefStore := mkWorld d [] 0 [].

Definition quiet (db : DB) (t : Z) : RefStore := mkRef db [] 0%nat [] t.

(** *** A store whose deletion does not take

    [DeleteItemByIDs] reports success and leaves every row in place: the
    ids it was given are still flagged at the next load. *)
Record StuckStore : Type := mkStuck { stuck_db : DB }.

#[export] Instance StuckStore_Store : Store StuckStore unit := {
  LoadItemIDsToDelete _ size := fun d =>
    (Ok (loadIDsToDelete size (stuck_db d)), d);
  DeleteItemByIDs _ _ := fun d => (Ok tt, d);
  LoadAllItemsIDInBufferAndAllUnitsExceptCDS _ cdsBackendID := fun d =>
    (Ok (listBufferedAndReplicatedExceptLegacy cdsBackendID (stuck_db d)), d);
  DeleteItemsUnit _ _ _ := fun d => (Ok tt, d);
  LoadOldItemUnitByItemStatusAndDuration _ _ _ := fun d => (Ok [], d);
  completeItem _ _ := fun d => (Ok tt, d);
  Begin := fun d => (Ok tt, d);
  Commit _ := fun d => (Ok tt, d);
  Rollback _ := fun d => (Ok tt, d)
}.

(* ================================================================== *)
(** ** Mark to delete *)
(* ================================================================== *)

Module Registry.

(** [sdk.CDNMarkDelete]: the request body of the mark-to-delete route. A
    field left at Go's zero value is a field that was not given. *)
Record CDNMarkDelete : Type := mkMarkDelete {
  md_RunID : Z;
  md_WorkflowID : Z
}.

Definition given (z : Z) : bool := negb (z =? 0).

(** Modelled from the spec: [markItemToDeleteHandler] and the registry
    operation behind it are not part of the embedded file (only their test
    is).  If [runID] is given the selector scopes to exactly that run; if
    only [workflowID] is given it scopes to all runs under that workflow. *)
Definition selects (sel : CDNMarkDelete) (it : CDNItem) : bool :=
  if given (md_RunID sel) then RunID (APIRef it) =? md_RunID sel
  else if given (md_WorkflowID sel)
       then WorkflowID (APIRef it) =? md_WorkflowID sel
       else false.

Definition mark (it : CDNItem) : CDNItem :=
  mkItem (ID it) (APIRef it) (Status it) true.

(** Modelled from the spec: [markToDelete(selector)] sets [toDelete = true]
    on all matching items; a pure metadata mutation. *)
Definition markToDelete (sel : CDNMarkDelete) (db : DB) : DB :=
  mkDB (map (fun it => if selects sel it then mark it else it) (db_items db))
       (db_item_units db)
       (db_units db)
       (db_lines db).

(** Modelled from the spec: the mark-for-deletion API invokes
    [markToDelete] and responds with no body on success (204). *)
Definition markItemToDeleteHandler (body : CDNMarkDelete) (db : DB) : Z * DB :=
  (204, markToDelete body db).

(** [item.LoadByID] *)
Definition LoadByID (i : ItemID) (db : DB) : option CDNItem :=
  find (fun it => String.eqb (ID it) i) (db_items db).

(** The three items of [TestMarkItemToDeleteHandler]. *)
Definition item1 : CDNItem :=
  mkItem "item1"%string (mkAPIRef 1 1) StatusItemIncoming false.
Definition item2 : CDNItem :=
  mkItem "item2"%string (mkAPIRef 2 2) StatusItemIncoming false.
Definition item3 : CDNItem :=
  mkItem "item3"%string (mkAPIRef 3 2) StatusItemIncoming false.

Definition test_db : DB := mkDB [item1; item2; item3] [] [] [].

End Registry.

(* ================================================================== *)
(** ** Streaming *)
(* ================================================================== *)

Module Stream.

(** [redis.Line] *)
Record Line : Type := mkLine {
  Number : Z;
  Value : string
}.

(** A subscription: [sub_next] is the lowest line number it will still
    deliver, [sub_received] the lines delivered so far, oldest first. *)
Record Subscription : Type := mkSub {
  sub_next : Z;
  sub_received : list Line
}.

(** The lines of one item, kept in ascending [Number] order, and the
    subscriptions opened on it. *)
Record Hub : Type := mkHub {
  hub_lines : list Line;
  hub_subs : list Subscription
}.

Definition emptyHub : Hub := mkHub [] [].

(** Modelled from the spec: the ingestion path is not part of the embedded
    file.  [Number] is the sole ordering key and is unique within an item:
    a line is stored at its place in ascending order, and a number that is
    already stored is not stored twice.  The result tells whether the line
    was stored. *)
Fixpoint insert_line (l : Line) (ls : list Line) : bool * list Line :=
  match ls with
  | [] => (true, [l])
  | x :: rest =>
    if Number l <? Number x then (true, l :: x :: rest)
    else if Number l =? Number x then (false, x :: rest)
    else let (fresh, rest') := insert_line l rest in (fresh, x :: rest')
  end.

(** Modelled from the spec: a subscriber is sent a line only in strictly
    ascending [Number] order, with no duplicate numbers. *)
Definition deliver (l : Line) (s : Subscription) : Subscription :=
  if sub_next s <=? Number l
  then mkSub (Number l + 1) (sub_received s ++ [l])
  else s.

(** Modelled from the spec: [storeLogs] is not part of the embedded file.
    A newly ingested line is stored, then pushed to the subscribers. *)
Definition storeLogs (l : Line) (h : Hub) : Hub :=
  let (fresh, ls) := insert_line l (hub_lines h) in
  mkHub ls (if fresh then map (deliver l) (hub_subs h) else hub_subs h).

(** Modelled from the spec: the stream handler is not part of the embedded
    file.  [subscribe(itemID, offset)] first replays all currently stored
    lines with [number >= offset], in order, then continues with newly
    ingested lines.  The result is the subscription's index in the hub. *)
Definition replay (offset : Z) (ls : list Line) : Subscription :=
  let backlog := filter (fun l => offset <=? Number l) ls in
  mkSub (fold_left (fun next l => Z.max next (Number l + 1)) backlog offset)
        backlog.

Definition subscribe (offset : option Z) (h : Hub) : nat * Hub :=
  let o := match offset with Some k => k | None => 0 end in
  (List.length (hub_subs h),
   mkHub (hub_lines h) (hub_subs h ++ [replay o (hub_lines h)])).

Definition received (sub : nat) (h : Hub) : list Line :=
  match nth_error (hub_subs h) sub with
  | Some s => sub_received s
  | None => []
  end.

(** [sendMessage] of [TestGetItemLogsStreamHandler]: message [i] is line
    [i]. *)
Definition message (value : nat -> string) (i : nat) : Line :=
  mkLine (Z.of_nat i) (value i).

Definition sendMessages (value : nat -> string) (from count : nat) (h : Hub)
  : Hub :=
  fold_left (fun acc i => storeLogs (message value i) acc) (seq from count) h.

(** The lines of the test, as the download handler's test shows them
    rendered. *)
Definition newline : string := String (Ascii.ascii_of_nat 10) EmptyString.

Definition test_value (i : nat) : string :=
  ("[EMERGENCY] message " ++ NilEmpty.string_of_uint (Nat.to_uint i)
   ++ newline)%string.

(** A subscription after the lines [ls] were ingested one by one. *)
Definition deliver_all (ls : list Line) (s : Subscription) : Subscription :=
  fold_left (fun acc l => deliver l acc) ls s.

End Stream.

(* ================================================================== *)
(** ** Observations on a run, and the configurations used below *)
(* ================================================================== *)

(** The collector functions entered, in order. *)
Fixpoint entered (cs : list Call) : list Op :=
  match cs with
  | [] => []
  | Enter op :: rest => op :: entered rest
  | _ :: rest => entered rest
  end.

(** [queries_inside_tx open cs]: every replication query of [cs] is issued
    on a transaction handle while a transaction is open ([open] tells
    whether one is open before [cs]). *)
Fixpoint queries_inside_tx (open : bool) (cs : list Call) : bool :=
  match cs with
  | [] => true
  | CallBegin :: rest => queries_inside_tx true rest
  | CallCommit :: rest => queries_inside_tx false rest
  | CallRollback :: rest => queries_inside_tx false rest
  | CallLoadReplicated h _ :: rest =>
    open && match h with OnTx => true | OnDB => false end
         && queries_inside_tx open rest
  | _ :: rest => queries_inside_tx open rest
  end.

(** The tickers created, by their periods. *)
Fixpoint tickers (cs : list Call) : list Z :=
  match cs with
  | [] => []
  | CallNewTicker d :: rest => d :: tickers rest
  | _ :: rest => tickers rest
  end.

(** What each function adds to the functions entered, the tickers created
    and the log. *)
Definition same_frame {D} (w w' : World D) (ops : list Op) : Prop :=
  entered (calls w') = entered (calls w) ++ ops
  /\ tickers (calls w') = tickers (calls w)
  /\ exists l, logs w' = logs w ++ l.

(** The calls of a sweep: loads of 100 ids and deletions of 1 to 100 ids,
    on the database handle. *)
Definition batch_ok (c : Call) : Prop :=
  match c with
  | CallDeleteItemByIDs h ids =>
    h = OnDB /\ (0 < List.length ids <= 100)%nat
  | CallLoadItemIDsToDelete h size => h = OnDB /\ size = 100
  | _ => False
  end.

(** What a run of [cleanWaitingItem_range] leaves behind: the item-units
    done, each by its own transaction, the item-units left, and the calls
    of the attempt that failed, if one did. *)
Definition complete_all (done : list ItemUnit) (db : DB) : DB :=
  fold_left (fun acc iu => completeItemByID (iu_ItemID iu) acc) done db.

Definition transactions (done : list ItemUnit) : list Call :=
  flat_map (fun iu => [CallBegin; CallCompleteItem iu; CallCommit]) done.

Definition failed_attempt (iu : ItemUnit) (tail : list Call) : Prop :=
  tail = [CallBegin]
  \/ tail = [CallBegin; CallCompleteItem iu; CallRollback]
  \/ tail = [CallBegin; CallCompleteItem iu; CallCommit; CallRollback].

Definition range_calls {D} (ius : list ItemUnit) (w : World D)
    (rw : Result unit * World D) : Prop :=
  exists done left tail,
    ius = done ++ left
    /\ calls (snd rw) = calls w ++ transactions done ++ tail
    /\ metricsItemCompletedByGC (snd rw)
       = metricsItemCompletedByGC w + Z.of_nat (List.length done)
    /\ match fst rw with
       | Ok _ => left = [] /\ tail = []
       | Err _ => exists iu left', left = iu :: left' /\ failed_attempt iu tail
       end.

Definition range_post (ius : list ItemUnit) (w : World RefStore)
    (rw : Result unit * World RefStore) : Prop :=
  exists done left tail,
    ius = done ++ left
    /\ committed (store (snd rw)) = complete_all done (committed (store w))
    /\ now (store (snd rw)) = now (store w)
    /\ metricsItemCompletedByGC (snd rw)
       = metricsItemCompletedByGC w + Z.of_nat (List.length done)
    /\ calls (snd rw) = calls w ++ transactions done ++ tail
    /\ match fst rw with
       | Ok _ => left = [] /\ tail = []
       | Err _ =>
         In true (faults (store w))
         /\ exists iu left', left = iu :: left' /\ failed_attempt iu tail
       end.

Definition complete_in (ids : list ItemID) (it : CDNItem) : CDNItem :=
  if mem (ID it) ids then complete it else it.

(** The item-units [completeItem] was called on, in order. *)
Fixpoint completions (cs : list Call) : list ItemUnit :=
  match cs with
  | [] => []
  | CallCompleteItem iu :: rest => iu :: completions rest
  | _ :: rest => completions rest
  end.

(** A backlog of [n] flagged items, ids "0" to "n-1", next to one item
    that is not flagged. *)
Definition backlog_id (k : nat) : ItemID :=
  NilEmpty.string_of_uint (Nat.to_uint k).

Definition db_backlog (n : nat) : DB :=
  mkDB (mkItem "keep"%string (mkAPIRef 1 1) StatusItemCompleted false
        :: map (fun k => mkItem (backlog_id k) (mkAPIRef 1 1)
                                StatusItemCompleted true)
               (seq 0 n))
       [] [] [].

Definition deletions (cs : list Call) : list nat :=
  flat_map (fun c => match c with
                     | CallDeleteItemByIDs _ ids => [List.length ids]
                     | _ => []
                     end) cs.

Definition is_done (c : SelectCase) : bool :=
  match c with CtxDone _ => true | TickC => false end.

Definition no_fault (fs : list bool) : bool := forallb negb fs.

Definition redis : UnitID := "redis"%string.
Definition local : UnitID := "local"%string.
Definition cdsUnit : UnitID := "cds"%string.

(** A service with a buffer, one permanent storage and the legacy CDS
    storage, and the same service without the legacy storage. *)
Definition svc_legacy : Service :=
  mkService (mkUnits redis [mkStorageUnit DriverOther local;
                            mkStorageUnit DriverCDS cdsUnit]).

Definition svc_no_legacy : Service :=
  mkService (mkUnits redis [mkStorageUnit DriverOther local]).

Definition units_legacy : list UnitRow :=
  [mkUnitRow redis KindBuffer; mkUnitRow local KindPermanent;
   mkUnitRow cdsUnit KindPermanent].

Definition units_no_legacy : list UnitRow :=
  [mkUnitRow redis KindBuffer; mkUnitRow local KindPermanent].

Definition itemA : CDNItem :=
  mkItem "a"%string (mkAPIRef 1 1) StatusItemCompleted false.

(** Item [a] is in the buffer and in the permanent storage. *)
Definition db_replicated (units : list UnitRow) : DB :=
  mkDB [itemA]
       [mkItemUnit "a"%string redis 0; mkItemUnit "a"%string local 0]
       units [].

(** Three incoming items written at time 0, in the buffer only. *)
Definition incoming (i : ItemID) : CDNItem :=
  mkItem i (mkAPIRef 1 1) StatusItemIncoming false.

Definition db_waiting : DB :=
  mkDB [incoming "x"%string; incoming "y"%string; incoming "z"%string]
       [mkItemUnit "x"%string redis 0; mkItemUnit "y"%string redis 0;
        mkItemUnit "z"%string redis 0]
       units_legacy [].

(** One flagged item. *)
Definition db_flagged : DB :=
  mkDB [mkItem "d"%string (mkAPIRef 1 1) StatusItemCompleted true] [] [] [].

Definition faulty (db : DB) (t : Z) (fs : list bool) : RefStore :=
  mkRef db [] 0%nat fs t.

(* ================================================================== *)
(** ** The transaction protocol of a run *)
(* ================================================================== *)

(** A store that keeps, next to the store it wraps, every call made to it
    and whether the call succeeded.  Each operation is the operation of
    the wrapped store; the collector runs on it as on any store. *)
Record Traced (D : Type) : Type := mkTraced {
  inner : D;
  outcomes : list (Call * bool)
}.

Definition succeeded {A} (r : Result A) : bool :=
  match r with Ok _ => true | Err _ => false end.

Definition handle_of {Tx} (ex : SqlExecutor Tx) : Handle :=
  match ex with ExecDB => OnDB | ExecTx _ => OnTx end.

Definition traced {D A} (c : Call) (f : D -> Result A * D) (t : Traced D)
  : Result A * Traced D :=
  let (r, d) := f (inner t) in
  (r, mkTraced d (outcomes t ++ [(c, succeeded r)])).

Definition Traced_Store {D Tx} (St : Store D Tx) : Store (Traced D) Tx := {|
  LoadItemIDsToDelete ex size :=
    traced (CallLoadItemIDsToDelete (handle_of ex) size)
           (LoadItemIDsToDelete ex size);
  DeleteItemByIDs ex ids :=
    traced (CallDeleteItemByIDs (handle_of ex) ids) (DeleteItemByIDs ex ids);
  LoadAllItemsIDInBufferAndAllUnitsExceptCDS ex cdsBackendID :=
    traced (CallLoadReplicated (handle_of ex) cdsBackendID)
           (LoadAllItemsIDInBufferAndAllUnitsExceptCDS ex cdsBackendID);
  DeleteItemsUnit ex u ids :=
    traced (CallDeleteItemsUnit (handle_of ex) u ids)
           (DeleteItemsUnit ex u ids);
  LoadOldItemUnitByItemStatusAndDuration ex status duration :=
    traced (CallLoadOld (handle_of ex) status duration)
           (LoadOldItemUnitByItemStatusAndDuration ex status duration);
  completeItem tx iu := traced (CallCompleteItem iu) (completeItem tx iu);
  Begin := traced CallBegin Begin;
  Commit tx := traced CallCommit (Commit tx);
  Rollback tx := traced CallRollback (Rollback tx)
|}.

(** The world of the wrapped store. *)
Definition untraced {D} (w : World (Traced D)) : World D :=
  mkWorld (inner (store w)) (logs w) (metricsItemCompletedByGC w) (calls w).

(** The calls that reach the store: all but the entry of an operation and
    the creation and stopping of a ticker. *)
Definition store_call (c : Call) : bool :=
  match c with
  | Enter _ => false
  | CallNewTicker _ => false
  | CallTickerStop => false
  | _ => true
  end.

(** Where a run stands with its transaction: none open, one begun, one
    written to, one whose write or commit failed, one committed. *)
Inductive TxPhase : Type := Idle | Open | Written | Failed | Committed.

(** A run may rest (an operation may return) with no transaction open or
    with the last one committed. *)
Definition resting (ph : TxPhase) : bool :=
  match ph with
  | Idle => true
  | Committed => true
  | _ => false
  end.

Definition on_db (c : Call) : bool :=
  match c with
  | CallLoadItemIDsToDelete OnDB _ => true
  | CallDeleteItemByIDs OnDB _ => true
  | CallLoadReplicated OnDB _ => true
  | CallLoadOld OnDB _ _ => true
  | _ => false
  end.

Definition tx_write (c : Call) : bool :=
  match c with
  | CallDeleteItemsUnit OnTx _ _ => true
  | CallCompleteItem _ => true
  | _ => false
  end.

(** The calls allowed in each phase, by their outcome.  A call on the
    database handle, and [Begin], are made only while resting; a [Begin]
    that failed opens nothing.  A transaction that was begun is written
    to, once, by the very next call; a write that succeeded is followed
    by [Commit]; a write or a [Commit] that failed is followed by
    [Rollback]; [Rollback] is called in no other phase but after a
    [Commit] that succeeded. *)
Definition phase_step (ph : TxPhase) (ev : Call * bool) : option TxPhase :=
  let (c, ok) := ev in
  match ph with
  | Idle =>
    if on_db c then Some Idle
    else match c with
         | CallBegin => Some (if ok then Open else Idle)
         | _ => None
         end
  | Committed =>
    if on_db c then Some Idle
    else match c with
         | CallBegin => Some (if ok then Open else Idle)
         | CallRollback => Some Idle
         | _ => None
         end
  | Open => if tx_write c then Some (if ok then Written else Failed) else None
  | Written =>
    match c with
    | CallCommit => Some (if ok then Committed else Failed)
    | _ => None
    end
  | Failed =>
    match c with
    | CallRollback => Some Idle
    | _ => None
    end
  end.

Fixpoint phase_run (ph : TxPhase) (evs : list (Call * bool))
  : option TxPhase :=
  match evs with
  | [] => Some ph
  | ev :: rest =>
    match phase_step ph ev with
    | Some ph' => phase_run ph' rest
    | None => None
    end
  end.

(** From [w] to [w'] the store was called as the calls recorded say, and
    the calls keep the protocol: started while resting, they are allowed
    one by one and end resting. *)
Definition keeps_protocol {D} (w w' : World (Traced D)) : Prop :=
  exists (new_calls : list Call) (new : list (Call * bool)),
    calls w' = calls w ++ new_calls
    /\ outcomes (store w') = outcomes (store w) ++ new
    /\ map fst new = filter store_call new_calls
    /\ forall ph, resting ph = true ->
       exists ph', phase_run ph new = Some ph' /\ resting ph' = true.

(** The calls of a run of [itemPurge]. *)
Definition purge_call (c : Call) : bool :=
  match c with
  | CallNewTicker _ => true
  | CallTickerStop => true
  | Enter OpCleanItemToDelete => true
  | CallLoadItemIDsToDelete OnDB _ => true
  | CallDeleteItemByIDs OnDB _ => true
  | _ => false
  end.

(* ================================================================== *)
(** ** Shapes of calls and log entries *)
(* ================================================================== *)

(** The calls of a sweep, in order: a load, then a deletion and the next
    load for as long as the sweep goes on. *)
Fixpoint sweep_shape (cs : list Call) : bool :=
  match cs with
  | CallLoadItemIDsToDelete OnDB 100 :: rest =>
    match rest with
    | [] => true
    | CallDeleteItemByIDs OnDB (_ :: _) :: rest' =>
      match rest' with
      | [] => true
      | _ => sweep_shape rest'
      end
    | _ => false
    end
  | _ => false
  end.

Definition is_cds (sto : StorageUnit) : bool :=
  match sto_driver sto with DriverCDS => true | DriverOther => false end.

(** What the loops log for the result of an operation. *)
Definition error_entry (r : Result unit) : list LogEntry :=
  match r with
  | Ok _ => []
  | Err err => [LogErrorWithFields err]
  end.

(* ================================================================== *)
(** ** The diff item component (diff.item.component.ts) *)
(* ================================================================== *)

Module DiffItem.

(** [class Mode] *)
Definition UNIFIED : string := "unified".
Definition SPLIT : string := "split".

(** A change of [JsDiff.diffLines], by the fields the component reads:
    [count] is a number of lines, [added] and [removed] are read for
    their truth value. *)
Record Part : Type := mkPart {
  value : string;
  count : nat;
  added : bool;
  removed : bool
}.

(** A call [doc.addLineClass(line, where, cls)]. *)
Record LineClass : Type := mkLineClass {
  lc_line : nat;
  lc_where : string;
  lc_class : string
}.

(** A [@ViewChild] editor: not there yet ([undefined]), there with no
    [instance], or there with an instance, of which the classes added to
    the lines of its document are kept, in the order of the calls. *)
Inductive ViewChild : Type :=
| NoChild
| NoInstance
| Instance (doc : list LineClass).

Record CodeMirrorConfig : Type := mkConfig {
  matchBrackets : bool;
  autoCloseBrackets : bool;
  cm_mode : string;
  lineWrapping : bool;
  autoRefresh : bool;
  readOnly : bool;
  lineNumbers : bool
}.

(** The fields of [DiffItemComponent]; an input or a field that is
    [undefined] is [None]. *)
Record Component : Type := mkComponent {
  codeLeft : ViewChild;
  codeRight : ViewChild;
  original : option string;
  updated : option string;
  mode : string;
  type : string;
  diff : option (list Part);
  contentLeft : option string;
  contentRight : option string;
  codeMirrorConfig : CodeMirrorConfig
}.

Inductive Outcome : Type :=
| Returns (c : Component)
| Throws (error : string).

Definition TypeError : string := "TypeError".

(** The field initialisers and the constructor: the editors and the
    inputs are set later, by the framework. *)
Definition constructor : Component :=
  mkComponent NoChild NoChild None None UNIFIED "text/plain" None None None
              (mkConfig true true "text/plain" true true true true).

Definition nl : string := String (Ascii.ascii_of_nat 10) EmptyString.

(** [s.repeat(n)] *)
Fixpoint repeat_str (s : string) (n : nat) : string :=
  match n with
  | O => EmptyString
  | S k => (s ++ repeat_str s k)%string
  end.

(** [for (let i = start; i < end; i++) doc.addLineClass(i, 'background',
    cls)] with [end = start + count]. *)
Definition addLineClasses (cls : string) (start count0 : nat)
    (doc : list LineClass) : list LineClass :=
  doc ++ map (fun i => mkLineClass i "background" cls) (seq start count0).

Definition leftSelected (mode0 : string) (part : Part) : bool :=
  (String.eqb mode0 UNIFIED && added part) || removed part.

Definition leftClass (part : Part) : string :=
  if added part then "codeAdded"%string else "codeRemoved"%string.

(** The [forEach] of [onCodeLeftChange], from the running [index]. *)
Fixpoint forEachLeft (mode0 : string) (parts : list Part) (index : nat)
    (doc : list LineClass) : list LineClass :=
  match parts with
  | [] => doc
  | part :: rest =>
    forEachLeft mode0 rest (index + count part)
      (if leftSelected mode0 part
       then addLineClasses (leftClass part) index (count part) doc
       else doc)
  end.

Definition set_codeLeft (v : ViewChild) (c : Component) : Component :=
  mkComponent v (codeRight c) (original c) (updated c) (mode c) (type c)
              (diff c) (contentLeft c) (contentRight c) (codeMirrorConfig c).

Definition set_codeRight (v : ViewChild) (c : Component) : Component :=
  mkComponent (codeLeft c) v (original c) (updated c) (mode c) (type c)
              (diff c) (contentLeft c) (contentRight c) (codeMirrorConfig c).

(** Reading [instance] of an editor that is [undefined], or calling
    [forEach] on a [diff] that is [undefined], throws. *)
Definition onCodeLeftChange (c : Component) : Outcome :=
  match codeLeft c with
  | NoChild => Throws TypeError
  | NoInstance => Returns c
  | Instance doc =>
    match diff c with
    | None => Throws TypeError
    | Some parts =>
      Returns (set_codeLeft (Instance (forEachLeft (mode c) parts 0 doc)) c)
    end
  end.

(** The [forEach] of [onCodeRightChange]. *)
Fixpoint forEachRight (parts : list Part) (index : nat)
    (doc : list LineClass) : list LineClass :=
  match parts with
  | [] => doc
  | part :: rest =>
    forEachRight rest (index + count part)
      (if added part
       then addLineClasses "codeAdded" index (count part) doc
       else doc)
  end.

(** [this.mode === Mode.SPLIT && this.codeRight.instance]: the editor is
    not looked at unless the mode is split. *)
Definition onCodeRightChange (c : Component) : Outcome :=
  if String.eqb (mode c) SPLIT then
    match codeRight c with
    | NoChild => Throws TypeError
    | NoInstance => Returns c
    | Instance doc =>
      match diff c with
      | None => Throws TypeError
      | Some parts =>
        Returns (set_codeRight (Instance (forEachRight parts 0 doc)) c)
      end
    end
  else Returns c.

(** The truth value of a string input: [undefined] and [''] are falsy. *)
Definition truthy (o : option string) : bool :=
  match o with
  | Some s => negb (String.eqb s EmptyString)
  | None => false
  end.

(** The three [reduce] callbacks of [refresh]. *)
Definition unifiedText (part : Part) : string := value part.

Definition splitLeftText (part : Part) : string :=
  if added part then repeat_str nl (count part) else value part.

Definition splitRightText (part : Part) : string :=
  if removed part then repeat_str nl (count part) else value part.

(** [diff.reduce((v, part) => v + f(part), '')] *)
Definition reduce_text (f : Part -> string) (parts : list Part) : string :=
  fold_left (fun v part => (v ++ f part)%string) parts EmptyString.

Section Refresh.

(** [JsDiff.diffLines(original, updated)]; [None] when the result is not
    an array.  The second argument is [undefined] when [updated] is. *)
Variable diffLines : string -> option string -> option (list Part).

(** [JSON.stringify(JSON.parse(s), null, 2)]; [None] when it throws. *)
Variable jsonPretty : string -> option string.

(** [try { s = JSON.stringify(JSON.parse(s), null, 2) } catch (e) { }] *)
Definition tryPretty (s : string) : string :=
  match jsonPretty s with Some s' => s' | None => s end.

(** The same on [updated], which may be [undefined]: [JSON.parse] of
    [undefined] throws. *)
Definition tryPrettyUpdated (o : option string) : option string :=
  match o with
  | Some s => Some (tryPretty s)
  | None => None
  end.

Definition originalText (c : Component) : string :=
  let original0 :=
    if truthy (original c)
    then match original c with Some s => s | None => EmptyString end
    else EmptyString in
  if String.eqb original0 "null" then EmptyString else original0.

(** The two texts [refresh] hands to [diffLines]. *)
Definition refreshTexts (c : Component) : string * option string :=
  let original0 := originalText c in
  let updated0 := updated c in
  if String.eqb (type c) "application/json"
  then (tryPretty original0, tryPrettyUpdated updated0)
  else (original0, updated0).

Definition refresh (c : Component) : Component :=
  match diffLines (fst (refreshTexts c)) (snd (refreshTexts c)) with
  | None => c
  | Some parts =>
    if String.eqb (mode c) UNIFIED
    then mkComponent (codeLeft c) (codeRight c) (original c) (updated c)
                     (mode c) (type c) (Some parts)
                     (Some (reduce_text unifiedText parts))
                     (contentRight c) (codeMirrorConfig c)
    else mkComponent (codeLeft c) (codeRight c) (original c) (updated c)
                     (mode c) (type c) (Some parts)
                     (Some (reduce_text splitLeftText parts))
                     (Some (reduce_text splitRightText parts))
                     (codeMirrorConfig c)
  end.

Definition set_cm_mode (m : string) (cfg : CodeMirrorConfig)
  : CodeMirrorConfig :=
  mkConfig (matchBrackets cfg) (autoCloseBrackets cfg) m (lineWrapping cfg)
           (autoRefresh cfg) (readOnly cfg) (lineNumbers cfg).

(** [this.codeMirrorConfig.mode = this.type] *)
Definition followType (c : Component) : Component :=
  mkComponent (codeLeft c) (codeRight c) (original c) (updated c)
              (mode c) (type c) (diff c) (contentLeft c) (contentRight c)
              (set_cm_mode (type c) (codeMirrorConfig c)).

Definition ngOnChanges (c : Component) : Component :=
  followType (if truthy (original c) && truthy (updated c)
              then refresh c else c).

End Refresh.

(** *** Measures used to state the layout *)

(** The number of line breaks of a text. *)
Fixpoint newlines (s : string) : nat :=
  match s with
  | EmptyString => O
  | String a rest =>
    ((if Ascii.eqb a (Ascii.ascii_of_nat 10) then 1 else 0) + newlines rest)%nat
  end.

(** The lines taken by a list of parts. *)
Definition total (parts : list Part) : nat :=
  fold_right (fun part n => (count part + n)%nat) O parts.

(** The classes one [forEach] adds, from line [index] on: [sel] tells the
    parts that are marked and [cls] their class. *)
Fixpoint marks (sel : Part -> bool) (cls : Part -> string)
    (parts : list Part) (index : nat) : list LineClass :=
  match parts with
  | [] => []
  | part :: rest =>
    (if sel part
     then map (fun i => mkLineClass i "background" (cls part))
              (seq index (count part))
     else [])
    ++ marks sel cls rest (index + count part)
  end.

(** The part whose lines include [line], counting from [index]. *)
Fixpoint part_at (parts : list Part) (index line : nat) : option Part :=
  match parts with
  | [] => None
  | part :: rest =>
    if (line <? index + count part)%nat
    then if (index <=? line)%nat then Some part else None
    else part_at rest (index + count part) line
  end.

Definition line_lt (a b : LineClass) : Prop := (lc_line a < lc_line b)%nat.

(** A test diff: two kept lines, one removed, two added, one kept. *)
Definition sample : list Part :=
  [mkPart ("a" ++ nl ++ "b" ++ nl) 2 false false;
   mkPart ("c" ++ nl) 1 false true;
   mkPart ("C" ++ nl ++ "D" ++ nl) 2 true false;
   mkPart ("e" ++ nl) 1 false false]%string.

Definition sample_diffLines (o : string) (u : option string)
  : option (list Part) := Some sample.

Definition no_json (s : string) : option string := None.

Definition sample_component (mode0 : string) : Component :=
  mkComponent (Instance []) (Instance []) (Some "x"%string) (Some "y"%string)
              mode0 "text/plain" None None None
              (mkConfig true true "text/plain" true true true true).

Definition sample_refreshed (mode0 : string) : Component :=
  refresh sample_diffLines no_json (sample_component mode0).

End DiffItem.

(* ================================================================== *)
(** ** Properties of the collector over any store *)
(* ================================================================== *)

Ltac unfold_gc :=
  unfold bind, ret, fail, call, enter, logM, log, record, telemetry_Record,
         wrapping, WithStack, defer, ignore in *.

Ltac split_call :=
  match goal with
  | |- context [match ?x with pair _ _ => _ end] =>
    lazymatch x with
    | context [match _ with pair _ _ => _ end] => fail
    | _ =>
      let E := fresh "E" in
      destruct x as [[?|?] ?] eqn:E;
      cbn [store logs calls metricsItemCompletedByGC fst snd]
    end
  end.

Section CollectorFacts.

Context {D Tx : Type} `{St : Store D Tx}.

Lemma entered_app (a b : list Call) : entered (a ++ b) = entered a ++ entered b.
Proof.
  induction a as [|c a IH]; cbn; [reflexivity|].
  destruct c; cbn; rewrite ?IH; reflexivity.
Qed.


Lemma tickers_app (a b : list Call) : tickers (a ++ b) = tickers a ++ tickers b.
Proof.
  induction a as [|c a IH]; cbn; [reflexivity|].
  destruct c; cbn; rewrite ?IH; reflexivity.
Qed.

Lemma same_frame_refl (w : World D) : same_frame w w [].
Proof.
  repeat split; rewrite ?app_nil_r; try reflexivity.
  exists []. now rewrite app_nil_r.
Qed.

Lemma same_frame_trans (w1 w2 w3 : World D) (a b : list Op) :
  same_frame w1 w2 a -> same_frame w2 w3 b -> same_frame w1 w3 (a ++ b).
Proof.
  intros (E1 & T1 & l1 & L1) (E2 & T2 & l2 & L2). repeat split.
  - now rewrite E2, E1, app_assoc.
  - now rewrite T2, T1.
  - exists (l1 ++ l2). now rewrite L2, L1, app_assoc.
Qed.

Ltac frame_now :=
  unfold same_frame; cbn [store logs calls metricsItemCompletedByGC];
  rewrite ?entered_app, ?tickers_app; cbn [entered tickers];
  rewrite ?app_nil_r, <- ?app_assoc; cbn [app];
  repeat split; try reflexivity;
  try (exists []; rewrite app_nil_r; reflexivity);
  try (eexists; reflexivity).

Lemma cleanBuffer_frame (s : Service) (w : World D) :
  same_frame w (snd (cleanBuffer s w)) [OpCleanBuffer]
  /\ logs (snd (cleanBuffer s w)) = logs w.
Proof.
  unfold cleanBuffer.
  destruct (String.eqb (findCDSBackendID (Storages (Units s))) EmptyString).
  - unfold_gc. cbn. split; [frame_now | reflexivity].
  - unfold_gc. cbn [store logs calls metricsItemCompletedByGC fst snd].
    repeat split_call; (split; [frame_now | reflexivity]).
Qed.

Lemma cleanWaitingItem_range_frame (ius : list ItemUnit) (w : World D) :
  same_frame w (snd (cleanWaitingItem_range ius w)) []
  /\ logs (snd (cleanWaitingItem_range ius w)) = logs w.
Proof.
  revert w. induction ius as [|iu rest IH]; intros w.
  - cbn. split; [apply same_frame_refl | reflexivity].
  - cbn [cleanWaitingItem_range]. unfold_gc.
    cbn [store logs calls metricsItemCompletedByGC fst snd].
    repeat split_call; try (split; [frame_now | reflexivity]).
    match goal with
    | |- context [cleanWaitingItem_range rest ?w1] =>
      destruct (IH w1) as [F L]; split;
      [ apply (@same_frame_trans w w1 _ [] []); [frame_now | exact F]
      | rewrite L; reflexivity ]
    end.
Qed.

Lemma cleanWaitingItem_frame (s : Service) (w : World D) :
  same_frame w (snd (cleanWaitingItem s w)) [OpCleanWaitingItem].
Proof.
  unfold cleanWaitingItem. unfold bind at 1. unfold enter at 1.
  unfold bind at 1. unfold call at 1.
  cbn [store logs calls metricsItemCompletedByGC fst snd].
  split_call; [|frame_now].
  unfold bind, logM, log. cbn [store logs calls metricsItemCompletedByGC fst snd].
  match goal with
  | |- context [cleanWaitingItem_range ?l ?w1] =>
    destruct (cleanWaitingItem_range_frame l w1) as [F _];
    apply (@same_frame_trans w w1 _ [OpCleanWaitingItem] []); [frame_now | exact F]
  end.
Qed.

Lemma cleanItemToDelete_loop_frame (fuel : nat) (w : World D) r w' :
  cleanItemToDelete_loop fuel w = Some (r, w') ->
  same_frame w w' [] /\ logs w' = logs w.
Proof.
  revert w. induction fuel as [|fuel IH]; intros w; [discriminate|].
  cbn [cleanItemToDelete_loop]. unfold call.
  destruct (LoadItemIDsToDelete ExecDB 100 (store w)) as [[ids|e] d1].
  - destruct (List.length ids =? 0)%nat.
    + intros [= <- <-]. split; [frame_now | reflexivity].
    + cbn [store logs calls metricsItemCompletedByGC].
      destruct (DeleteItemByIDs ExecDB ids d1) as [[u|e] d2].
      * intros H. apply IH in H. destruct H as [F L]. split.
        -- eapply (@same_frame_trans w _ w' [] []); [|exact F]. frame_now.
        -- rewrite L. reflexivity.
      * intros [= <- <-]. split; [frame_now | reflexivity].
  - intros [= <- <-]. split; [frame_now | reflexivity].
Qed.

Lemma cleanItemToDelete_frame (fuel : nat) (s : Service) (w : World D) r w' :
  cleanItemToDelete fuel s w = Some (r, w') ->
  same_frame w w' [OpCleanItemToDelete] /\ logs w' = logs w.
Proof.
  unfold cleanItemToDelete. intros H.
  apply cleanItemToDelete_loop_frame in H. destruct H as [F L]. split.
  - eapply (@same_frame_trans w _ w' [OpCleanItemToDelete] []); [|exact F].
    unfold enter. cbn. frame_now.
  - rewrite L. reflexivity.
Qed.

Lemma logged_frame (w : World D) (rw : Result unit * World D) (ops : list Op) :
  same_frame w (snd rw) ops -> same_frame w (logged rw) ops.
Proof.
  destruct rw as [[u|e] w1]; cbn; [auto|].
  intros (E & T & l & L). repeat split; cbn; auto.
  exists (l ++ [LogErrorWithFields e]). now rewrite L, app_assoc.
Qed.

Lemma logged_err_in (e : error) (w1 : World D) :
  In (LogErrorWithFields e) (logs (logged (Err e, w1))).
Proof. cbn. apply in_or_app. right. now left. Qed.

Lemma same_frame_logs_in (w w' : World D) ops l :
  same_frame w w' ops -> In l (logs w) -> In l (logs w').
Proof.
  intros (_ & _ & l' & L) H. rewrite L. apply in_or_app. now left.
Qed.


(** *** The loops *)

Lemma tick_frame (s : Service) (w : World D) :
  same_frame w (logged (cleanWaitingItem s (logged (cleanBuffer s w))))
             [OpCleanBuffer; OpCleanWaitingItem].
Proof.
  apply (@same_frame_trans w (logged (cleanBuffer s w)) _
                           [OpCleanBuffer] [OpCleanWaitingItem]).
  - apply logged_frame, cleanBuffer_frame.
  - apply logged_frame, cleanWaitingItem_frame.
Qed.

Lemma itemsGC_for_state (s : Service) (sel : list SelectCase) (w : World D) :
  fst (itemsGC_for s sel w) = if existsb is_done sel then Returned else Selecting.
Proof.
  revert w. induction sel as [|c sel IH]; intros w; [reflexivity|].
  destruct c; cbn; [reflexivity | apply IH].
Qed.

Lemma itemPurge_for_state (fuel : nat) (s : Service) (sel : list SelectCase)
    (w : World D) st w' :
  itemPurge_for fuel s sel w = Some (st, w') ->
  st = if existsb is_done sel then Returned else Selecting.
Proof.
  revert w. induction sel as [|c sel IH]; intros w; cbn.
  - now intros [= <- _].
  - destruct c; cbn.
    + now intros [= <- _].
    + destruct (cleanItemToDelete fuel s w); [apply IH | discriminate].
Qed.

Lemma existsb_done_ticks (n : nat) : existsb is_done (repeat TickC n) = false.
Proof. induction n; cbn; auto. Qed.

Lemma itemsGC_for_ticks (s : Service) (n : nat) (w : World D) :
  same_frame w (snd (itemsGC_for s (repeat TickC n) w))
             (List.concat (repeat [OpCleanBuffer; OpCleanWaitingItem] n)).
Proof.
  revert w. induction n as [|n IH]; intros w.
  - apply same_frame_refl.
  - cbn [repeat itemsGC_for List.concat].
    eapply same_frame_trans; [apply tick_frame | apply IH].
Qed.

Lemma itemPurge_for_ticks (fuel : nat) (s : Service) (n : nat) (w : World D)
    st w' :
  itemPurge_for fuel s (repeat TickC n) w = Some (st, w') ->
  same_frame w w' (repeat OpCleanItemToDelete n).
Proof.
  revert w. induction n as [|n IH]; intros w; cbn [repeat itemPurge_for].
  - intros [= _ <-]. apply same_frame_refl.
  - destruct (cleanItemToDelete fuel s w) as [[r w1]|] eqn:E; [|discriminate].
    intros H. apply IH in H.
    apply cleanItemToDelete_frame in E. destruct E as [F _].
    change (OpCleanItemToDelete :: repeat OpCleanItemToDelete n)
      with ([OpCleanItemToDelete] ++ repeat OpCleanItemToDelete n).
    eapply same_frame_trans; [|exact H].
    apply (@logged_frame w (r, w1)). exact F.
Qed.

Lemma stop_on_return_fst (lw : LoopState * World D) :
  fst (stop_on_return lw) = fst lw.
Proof. destruct lw as [[] w]; reflexivity. Qed.

Lemma stop_on_return_selecting (lw : LoopState * World D) :
  fst lw = Selecting -> stop_on_return lw = lw.
Proof. destruct lw as [[] w]; cbn; [discriminate | reflexivity]. Qed.

Lemma stop_on_return_returned (lw : LoopState * World D) :
  fst lw = Returned ->
  calls (snd (stop_on_return lw)) = calls (snd lw) ++ [CallTickerStop].
Proof. destruct lw as [[] w]; cbn; [reflexivity | discriminate]. Qed.

(** A loop that has taken every tick of [pre] and is blocked in [select]
    goes on from there with the cases that follow. *)
Lemma itemPurge_for_app (fuel : nat) (s : Service) (pre rest : list SelectCase)
    (w w1 : World D) :
  itemPurge_for fuel s pre w = Some (Selecting, w1) ->
  itemPurge_for fuel s (pre ++ rest) w = itemPurge_for fuel s rest w1.
Proof.
  revert w. induction pre as [|c pre IH]; intros w; cbn [app itemPurge_for].
  - intros [= <-]. reflexivity.
  - destruct c; [discriminate|].
    destruct (cleanItemToDelete fuel s w); [apply IH | discriminate].
Qed.

(** [itemPurge] returns at the [ctx.Done()] case, its ticker stopped, as
    soon as the sweeps of the ticks before it have returned. *)
Lemma itemPurge_returns_on_done (fuel : nat) (s : Service)
    (pre : list SelectCase) (ctxErr : option error) (sel : list SelectCase)
    (w w1 : World D) :
  itemPurge fuel s pre w = Some (Selecting, w1) ->
  itemPurge fuel s (pre ++ CtxDone ctxErr :: sel) w
  = Some (Returned,
          record CallTickerStop (ctxDone "cdn:ItemPurge: %v" ctxErr w1)).
Proof.
  unfold itemPurge. intros H.
  destruct (itemPurge_for fuel s pre _) as [[[] w0]|] eqn:E;
    cbn in H; try discriminate.
  injection H as <-.
  erewrite itemPurge_for_app by exact E. reflexivity.
Qed.

(** The two loops over any store: what a run of ticks creates and enters,
    and how a run ends at the [ctx.Done()] case. *)
Lemma loops_run_on_their_tickers (s : Service) :
  period tickPurge = 60 * 1000000000
  /\ period tickGC = 60 * 1000000000
  /\ (forall n w,
        fst (itemsGC s (repeat TickC n) w) = Selecting
        /\ tickers (calls (snd (itemsGC s (repeat TickC n) w)))
           = tickers (calls w) ++ [period tickGC]
        /\ entered (calls (snd (itemsGC s (repeat TickC n) w)))
           = entered (calls w)
             ++ List.concat (repeat [OpCleanBuffer; OpCleanWaitingItem] n))
  /\ (forall fuel n w st w',
        itemPurge fuel s (repeat TickC n) w = Some (st, w') ->
        st = Selecting
        /\ tickers (calls w') = tickers (calls w) ++ [period tickPurge]
        /\ entered (calls w')
           = entered (calls w) ++ repeat OpCleanItemToDelete n)
  /\ (forall n ctxErr sel w,
        fst (itemsGC s (repeat TickC n ++ CtxDone ctxErr :: sel) w) = Returned
        /\ exists cs,
             calls (snd (itemsGC s (repeat TickC n ++ CtxDone ctxErr :: sel) w))
             = cs ++ [CallTickerStop])
  /\ (forall fuel n ctxErr sel w st w',
        itemPurge fuel s (repeat TickC n ++ CtxDone ctxErr :: sel) w
        = Some (st, w') ->
        st = Returned /\ exists cs, calls w' = cs ++ [CallTickerStop]).
Proof.
  assert (Hdone : forall n ctxErr sel,
             existsb is_done (repeat TickC n ++ CtxDone ctxErr :: sel) = true).
  { intros n ctxErr sel. rewrite existsb_app. cbn. apply orb_true_r. }
  split; [reflexivity|]. split; [reflexivity|]. repeat split.
  - unfold itemsGC. rewrite stop_on_return_fst, itemsGC_for_state.
    now rewrite existsb_done_ticks.
  - unfold itemsGC. rewrite stop_on_return_selecting
      by (rewrite itemsGC_for_state; now rewrite existsb_done_ticks).
    match goal with
    | |- context [itemsGC_for s ?l ?w0] =>
      destruct (itemsGC_for_ticks s n w0) as (_ & T & _); rewrite T
    end.
    cbn. rewrite tickers_app. reflexivity.
  - unfold itemsGC. rewrite stop_on_return_selecting
      by (rewrite itemsGC_for_state; now rewrite existsb_done_ticks).
    match goal with
    | |- context [itemsGC_for s ?l ?w0] =>
      destruct (itemsGC_for_ticks s n w0) as (E & _ & _); rewrite E
    end.
    cbn. rewrite entered_app. cbn. now rewrite app_nil_r.
  - unfold itemPurge in H.
    destruct (itemPurge_for fuel s (repeat TickC n) _) as [[st0 w0]|] eqn:E;
      [|discriminate].
    apply itemPurge_for_state in E. rewrite existsb_done_ticks in E. subst st0.
    cbn in H. now injection H as <- _.
  - unfold itemPurge in H.
    destruct (itemPurge_for fuel s (repeat TickC n) _) as [[st0 w0]|] eqn:E;
      [|discriminate].
    pose proof (itemPurge_for_state _ _ _ _ E) as Hs.
    rewrite existsb_done_ticks in Hs. subst st0.
    cbn in H. injection H as _ <-.
    apply itemPurge_for_ticks in E. destruct E as (_ & T & _). rewrite T.
    cbn. rewrite tickers_app. reflexivity.
  - unfold itemPurge in H.
    destruct (itemPurge_for fuel s (repeat TickC n) _) as [[st0 w0]|] eqn:E;
      [|discriminate].
    pose proof (itemPurge_for_state _ _ _ _ E) as Hs.
    rewrite existsb_done_ticks in Hs. subst st0.
    cbn in H. injection H as _ <-.
    apply itemPurge_for_ticks in E. destruct E as (E & _ & _). rewrite E.
    cbn. rewrite entered_app. cbn. now rewrite app_nil_r.
  - unfold itemsGC. rewrite stop_on_return_fst, itemsGC_for_state.
    now rewrite Hdone.
  - unfold itemsGC. eexists. apply stop_on_return_returned.
    rewrite itemsGC_for_state. now rewrite Hdone.
  - unfold itemPurge in H.
    destruct (itemPurge_for fuel s _ _) as [[st0 w0]|] eqn:E; [|discriminate].
    apply itemPurge_for_state in E. rewrite Hdone in E. subst st0.
    cbn in H. now injection H as <- _.
  - unfold itemPurge in H.
    destruct (itemPurge_for fuel s _ _) as [[st0 w0]|] eqn:E; [|discriminate].
    apply itemPurge_for_state in E. rewrite Hdone in E. subst st0.
    cbn in H. injection H as _ <-. eexists. reflexivity.
Qed.


(** The loops over any store: the state a run ends in, and what a tick
    does with the error of one of its operations. *)
Lemma loops_log_errors_and_go_on (s : Service) :
  (forall fuel sel w st w',
      itemPurge fuel s sel w = Some (st, w') ->
      st = if existsb is_done sel then Returned else Selecting)
  /\ (forall sel w,
        fst (itemsGC s sel w)
        = if existsb is_done sel then Returned else Selecting)
  /\ (forall fuel sel w e w1,
        cleanItemToDelete fuel s w = Some (Err e, w1) ->
        itemPurge_for fuel s (TickC :: sel) w
        = itemPurge_for fuel s sel (log (LogErrorWithFields e) w1))
  /\ (forall sel w e w1,
        cleanBuffer s w = (Err e, w1) ->
        exists w2,
          itemsGC_for s (TickC :: sel) w = itemsGC_for s sel w2
          /\ In (LogErrorWithFields e) (logs w2)
          /\ entered (calls w2)
             = entered (calls w) ++ [OpCleanBuffer; OpCleanWaitingItem])
  /\ (forall sel w e w2,
        cleanWaitingItem s (logged (cleanBuffer s w)) = (Err e, w2) ->
        itemsGC_for s (TickC :: sel) w
        = itemsGC_for s sel (log (LogErrorWithFields e) w2)).
Proof.
  repeat split.
  - intros fuel sel w st w' H. unfold itemPurge in H.
    destruct (itemPurge_for fuel s sel _) as [[st0 w0]|] eqn:E; [|discriminate].
    apply itemPurge_for_state in E. cbn in H.
    destruct st0; cbn in H; injection H as <- _; exact E.
  - intros sel w. unfold itemsGC.
    now rewrite stop_on_return_fst, itemsGC_for_state.
  - intros fuel sel w e w1 H. cbn [itemPurge_for]. rewrite H. reflexivity.
  - intros sel w e w1 H.
    exists (logged (cleanWaitingItem s (logged (cleanBuffer s w)))).
    split; [reflexivity|]. split.
    + eapply same_frame_logs_in.
      * apply logged_frame, cleanWaitingItem_frame.
      * rewrite H. apply logged_err_in.
    + apply tick_frame.
  - intros sel w e w2 H. cbn [itemsGC_for]. rewrite H. reflexivity.
Qed.

(** *** The sweep *)

Lemma sweep_loop_returns (fuel : nat) (w : World D) r w' :
  cleanItemToDelete_loop fuel w = Some (r, w') ->
  (exists e, r = Err e)
  \/ (exists d, LoadItemIDsToDelete ExecDB 100 d = (Ok [], store w')).
Proof.
  revert w. induction fuel as [|fuel IH]; intros w; [discriminate|].
  cbn [cleanItemToDelete_loop]. unfold call.
  destruct (LoadItemIDsToDelete ExecDB 100 (store w)) as [[ids|e] d1] eqn:L.
  - destruct ids as [|i ids]; cbn [List.length Nat.eqb].
    + intros [= <- <-]. right. exists (store w). exact L.
    + cbn [store logs calls metricsItemCompletedByGC].
      destruct (DeleteItemByIDs ExecDB (i :: ids) d1) as [[u|e] d2].
      * apply IH.
      * intros [= <- <-]. left. eauto.
  - intros [= <- <-]. left. eauto.
Qed.

Lemma sweep_loop_stuck (Inv : D -> Prop) :
  (forall d, Inv d ->
     exists ids d1 u d2,
       LoadItemIDsToDelete ExecDB 100 d = (Ok ids, d1) /\ ids <> []
       /\ DeleteItemByIDs ExecDB ids d1 = (Ok u, d2) /\ Inv d2) ->
  forall fuel w, Inv (store w) -> cleanItemToDelete_loop fuel w = None.
Proof.
  intros Hstep. induction fuel as [|fuel IH]; intros w Hw; [reflexivity|].
  cbn [cleanItemToDelete_loop]. unfold call.
  destruct (Hstep _ Hw) as (ids & d1 & u & d2 & L & Hne & Del & Hd2).
  rewrite L. destruct ids as [|i ids]; [contradiction|].
  cbn [List.length Nat.eqb store logs calls metricsItemCompletedByGC].
  rewrite Del. apply IH. exact Hd2.
Qed.

(** C10: the sweep returns only with an error or after a load that gave no
    id; when every load keeps giving ids and every deletion reports
    success (the ids loaded are not cleared by the deletion), no number of
    iterations makes the sweep return, and the tick of [itemPurge] that
    started it never ends. *)
Theorem sweep_returns_only_on_empty_load (s : Service) :
  (forall fuel w r w',
      cleanItemToDelete fuel s w = Some (r, w') ->
      (exists e, r = Err e)
      \/ (exists d, LoadItemIDsToDelete ExecDB 100 d = (Ok [], store w')))
  /\ (forall Inv : D -> Prop,
        (forall d, Inv d ->
           exists ids d1 u d2,
             LoadItemIDsToDelete ExecDB 100 d = (Ok ids, d1) /\ ids <> []
             /\ DeleteItemByIDs ExecDB ids d1 = (Ok u, d2) /\ Inv d2) ->
        forall w, Inv (store w) ->
        forall fuel sel,
          cleanItemToDelete fuel s w = None
          /\ itemPurge fuel s (TickC :: sel) w = None).
Proof.
  split.
  - intros fuel w r w' H. unfold cleanItemToDelete in H.
    eapply sweep_loop_returns; eauto.
  - intros Inv Hstep w Hw fuel sel.
    assert (E : forall w0 : World D, Inv (store w0) ->
                cleanItemToDelete fuel s w0 = None).
    { intros w0 Hw0. unfold cleanItemToDelete.
      eapply sweep_loop_stuck; eauto. }
    split; [apply E; exact Hw|].
    unfold itemPurge. cbn [itemPurge_for]. rewrite E; [reflexivity | exact Hw].
Qed.

(** *** Buffer eviction *)

(** C1 (as amended): [cleanBuffer] by the outcome of each of its calls.
    Without a legacy unit it makes no call.  With one, the replication
    query is issued once, on the database handle and on the store as it
    is when [cleanBuffer] is entered, before [Begin]; when the query gives
    [ids] and [Begin] gives [tx], the buffer rows of exactly [ids] are
    deleted on [tx], a successful deletion is followed by [Commit], and
    the deferred [Rollback] comes last; nothing is queried inside the
    transaction. *)
Theorem cleanBuffer_queries_before_its_transaction (s : Service) (w : World D) :
  let cds := findCDSBackendID (Storages (Units s)) in
  let buf := Buffer (Units s) in
  let query := CallLoadReplicated OnDB cds in
  let after (d : D) (new : list Call) :=
    mkWorld d (logs w) (metricsItemCompletedByGC w)
            (calls w ++ Enter OpCleanBuffer :: new) in
  (if String.eqb cds EmptyString
   then cleanBuffer s w = (Ok tt, after (store w) [])
   else
     match LoadAllItemsIDInBufferAndAllUnitsExceptCDS ExecDB cds (store w) with
     | (Err e, d1) => cleanBuffer s w = (Err e, after d1 [query])
     | (Ok ids, d1) =>
       match Begin d1 with
       | (Err e, d2) =>
         cleanBuffer s w
         = (Err (WrapError e "unable to start transaction"),
            after d2 [query; CallBegin])
       | (Ok tx, d2) =>
         let delete := CallDeleteItemsUnit OnTx buf ids in
         match DeleteItemsUnit (ExecTx tx) buf ids d2 with
         | (Err e, d3) =>
           cleanBuffer s w
           = (Err e,
              after (snd (Rollback tx d3))
                    [query; CallBegin; delete; CallRollback])
         | (Ok _, d3) =>
           cleanBuffer s w
           = (match fst (Commit tx d3) with
              | Ok u => Ok u
              | Err e => Err (WithStackErr e)
              end,
              after (snd (Rollback tx (snd (Commit tx d3))))
                    [query; CallBegin; delete; CallCommit; CallRollback])
         end
       end
     end)
  /\ (String.eqb cds EmptyString = false ->
      exists rest,
        calls (snd (cleanBuffer s w))
        = calls w ++ Enter OpCleanBuffer :: query :: rest
        /\ queries_inside_tx false (Enter OpCleanBuffer :: query :: rest)
           = false
        /\ (forall h c, ~ In (CallLoadReplicated h c) rest)
        /\ (forall h u ids,
              In (CallDeleteItemsUnit h u ids) rest ->
              h = OnTx /\ u = buf
              /\ fst (LoadAllItemsIDInBufferAndAllUnitsExceptCDS
                        ExecDB cds (store w)) = Ok ids)).
Proof.
  intros cds buf query after. split.
  - unfold cleanBuffer. fold cds buf.
    destruct (String.eqb cds EmptyString); [reflexivity|].
    unfold_gc. cbn [store logs calls metricsItemCompletedByGC fst snd].
    subst after query. cbn beta.
    repeat split_call; rewrite <- ?app_assoc; cbn [app]; reflexivity.
  - intros Hcds. unfold cleanBuffer. fold cds buf. rewrite Hcds.
    unfold_gc. cbn [store logs calls metricsItemCompletedByGC fst snd].
    repeat split_call; rewrite <- ?app_assoc; cbn [app].
    all: eexists; split; [reflexivity|].
    all: split; [reflexivity|].
    all: split; [intros h c; cbn; intuition discriminate|].
    all: intros h u ids; cbn; intros HIn.
    all: repeat (destruct HIn as [HIn|HIn]; try discriminate); try contradiction.
    all: inversion HIn; subst; auto.
Qed.

(** C2 (as amended): when no legacy unit is found among the storages (none
    is a CDS storage, or the first one has an empty ID), [cleanBuffer]
    returns nil at once: it makes no call to the store, so nothing is
    queried and nothing is evicted, whatever permanent units are
    registered. *)
Theorem cleanBuffer_without_legacy_unit (s : Service) (w : World D) :
  findCDSBackendID (Storages (Units s)) = EmptyString ->
  cleanBuffer s w = (Ok tt, record (Enter OpCleanBuffer) w).
Proof.
  intros H. unfold cleanBuffer. rewrite H. reflexivity.
Qed.

(** *** Stale-incoming completion *)

Lemma range_calls_fail (iu : ItemUnit) (rest : list ItemUnit)
    (w w' : World D) (e : error) (tail : list Call) :
  metricsItemCompletedByGC w' = metricsItemCompletedByGC w ->
  calls w' = calls w ++ tail ->
  failed_attempt iu tail ->
  range_calls (iu :: rest) w (Err e, w').
Proof.
  intros Me Ca Fa. exists [], (iu :: rest), tail. cbn.
  repeat split; auto; [lia | eauto].
Qed.

Lemma range_calls_step (iu : ItemUnit) (rest : list ItemUnit)
    (w w1 : World D) (rw : Result unit * World D) :
  metricsItemCompletedByGC w1 = metricsItemCompletedByGC w + 1 ->
  calls w1 = calls w ++ [CallBegin; CallCompleteItem iu; CallCommit] ->
  range_calls rest w1 rw ->
  range_calls (iu :: rest) w rw.
Proof.
  intros Me Ca (done & left & tail & E & Ca' & Me' & R).
  exists (iu :: done), left, tail. repeat split.
  - cbn. now rewrite E.
  - rewrite Ca', Ca. cbn. now rewrite <- app_assoc.
  - rewrite Me', Me. cbn [List.length]. lia.
  - exact R.
Qed.

Lemma cleanWaitingItem_range_calls (ius : list ItemUnit) (w : World D) :
  range_calls ius w (cleanWaitingItem_range ius w).
Proof.
  revert w. induction ius as [|iu rest IH]; intros w.
  - exists [], [], []. cbn. rewrite app_nil_r. repeat split; auto. lia.
  - cbn [cleanWaitingItem_range]. unfold_gc.
    cbn [store logs calls metricsItemCompletedByGC fst snd].
    repeat split_call.
    all: try (eapply range_calls_step; [| |apply IH]; cbn;
              rewrite <- ?app_assoc; reflexivity).
    all: eapply range_calls_fail; cbn; rewrite <- ?app_assoc; cbn;
      try reflexivity; unfold failed_attempt; auto.
Qed.

Lemma cleanWaitingItem_unfold (s : Service) (w : World D) :
  cleanWaitingItem s w =
  let entry := calls w ++ [Enter OpCleanWaitingItem;
                           CallLoadOld OnDB StatusItemIncoming ItemLogGC] in
  match LoadOldItemUnitByItemStatusAndDuration
          ExecDB StatusItemIncoming ItemLogGC (store w) with
  | (Err e, d) =>
    (Err e, mkWorld d (logs w) (metricsItemCompletedByGC w) entry)
  | (Ok stale, d) =>
    cleanWaitingItem_range stale
      (mkWorld d
         (logs w ++ [LogDebug "cdn:CompleteWaitingItems: %d items to complete"
                              (Z.of_nat (List.length stale))])
         (metricsItemCompletedByGC w) entry)
  end.
Proof.
  unfold cleanWaitingItem. unfold_gc.
  cbn [store logs calls metricsItemCompletedByGC fst snd].
  destruct (LoadOldItemUnitByItemStatusAndDuration ExecDB StatusItemIncoming
              ItemLogGC (store w)) as [[stale|e] d];
    cbn [store logs calls metricsItemCompletedByGC fst snd];
    rewrite <- app_assoc; reflexivity.
Qed.

(** Over any store: the stale item-units loaded split into those done,
    each by its own [Begin], [completeItem], [Commit], and those left; an
    error comes from the load or from the first item left, and no call is
    made for the items after it. *)
Lemma cleanWaitingItem_calls (s : Service) (w : World D) :
  let load := LoadOldItemUnitByItemStatusAndDuration
                ExecDB StatusItemIncoming ItemLogGC (store w) in
  let r := fst (cleanWaitingItem s w) in
  let w' := snd (cleanWaitingItem s w) in
  let entry := [Enter OpCleanWaitingItem;
                CallLoadOld OnDB StatusItemIncoming ItemLogGC] in
  match fst load with
  | Err e => r = Err e /\ calls w' = calls w ++ entry
  | Ok stale =>
    exists done left tail,
      stale = done ++ left
      /\ calls w' = calls w ++ entry ++ transactions done ++ tail
      /\ metricsItemCompletedByGC w'
         = metricsItemCompletedByGC w + Z.of_nat (List.length done)
      /\ match r with
         | Ok _ => left = [] /\ tail = []
         | Err _ =>
           exists iu left', left = iu :: left' /\ failed_attempt iu tail
         end
  end.
Proof.
  cbv zeta. rewrite cleanWaitingItem_unfold.
  destruct (LoadOldItemUnitByItemStatusAndDuration ExecDB StatusItemIncoming
              ItemLogGC (store w)) as [[stale|e] d]; cbn [fst snd].
  - match goal with
    | |- context [cleanWaitingItem_range stale ?w1] =>
      destruct (cleanWaitingItem_range_calls stale w1)
        as (done & left & tail & Es & Ca & Me & R)
    end.
    exists done, left, tail. rewrite Ca, Me.
    cbn [calls metricsItemCompletedByGC].
    rewrite <- !app_assoc. repeat split; auto.
  - split; reflexivity.
Qed.

End CollectorFacts.

(* ================================================================== *)
(** ** The collector on the reference store: runs *)
(* ================================================================== *)

(** C1 (counterexample): with a legacy unit registered and item [a] in the
    buffer and in the permanent storage, [cleanBuffer] evicts [a] from the
    buffer, and the query that found [a] replicated was issued on the
    database handle before [Begin], outside the transaction that
    deleted the row. *)
Lemma cleanBuffer_query_outside_transaction :
  let w' := snd (cleanBuffer svc_legacy
                   (world_of (quiet (db_replicated units_legacy) 0))) in
  calls w' = [Enter OpCleanBuffer; CallLoadReplicated OnDB cdsUnit; CallBegin;
              CallDeleteItemsUnit OnTx redis ["a"%string];
              CallCommit; CallRollback]
  /\ queries_inside_tx false (calls w') = false
  /\ in_buffer (db_replicated units_legacy) "a"%string = true
  /\ in_buffer (committed (store w')) "a"%string = false.
Proof. vm_compute. repeat split. Qed.

Lemma cleanBuffer_queries_before_its_transaction_witness :
  let w := world_of (quiet (db_replicated units_legacy) 0) in
  String.eqb (findCDSBackendID (Storages (Units svc_legacy))) EmptyString
  = false
  /\ fst (cleanBuffer svc_legacy w) = Ok tt
  /\ calls (snd (cleanBuffer svc_legacy w))
     = [Enter OpCleanBuffer; CallLoadReplicated OnDB cdsUnit; CallBegin;
        CallDeleteItemsUnit OnTx redis ["a"%string];
        CallCommit; CallRollback]
  /\ exists rest,
       calls (snd (cleanBuffer svc_legacy w))
       = Enter OpCleanBuffer :: CallLoadReplicated OnDB cdsUnit :: rest
       /\ queries_inside_tx false
            (Enter OpCleanBuffer :: CallLoadReplicated OnDB cdsUnit :: rest)
          = false
       /\ (forall h c, ~ In (CallLoadReplicated h c) rest)
       /\ (forall h u ids,
             In (CallDeleteItemsUnit h u ids) rest ->
             h = OnTx /\ u = redis
             /\ fst (LoadAllItemsIDInBufferAndAllUnitsExceptCDS
                       ExecDB cdsUnit (store w)) = Ok ids).
Proof.
  intros w.
  destruct (cleanBuffer_queries_before_its_transaction svc_legacy w)
    as [Hpath Hquery].
  split; [reflexivity|].
  assert (Hrun : exists d,
             cleanBuffer svc_legacy w
             = (Ok tt,
                mkWorld d [] 0
                        [Enter OpCleanBuffer;
                         CallLoadReplicated OnDB cdsUnit; CallBegin;
                         CallDeleteItemsUnit OnTx redis ["a"%string];
                         CallCommit; CallRollback]))
    by (eexists; exact Hpath).
  destruct Hrun as [d Hrun].
  split; [rewrite Hrun; reflexivity|].
  split; [rewrite Hrun; reflexivity|].
  exact (Hquery eq_refl).
Defined.

(** C2 (counterexample): no legacy unit is registered, item [a] is in the
    buffer and in every permanent unit, and [cleanBuffer] returns nil
    leaving [a] in the buffer without a single call to the store. *)
Lemma cleanBuffer_keeps_buffer_without_legacy_unit :
  let db := db_replicated units_no_legacy in
  let rw := cleanBuffer svc_no_legacy (world_of (quiet db 0)) in
  findCDSBackendID (Storages (Units svc_no_legacy)) = EmptyString
  /\ in_buffer db "a"%string = true
  /\ in_every_permanent_except db EmptyString "a"%string = true
  /\ fst rw = Ok tt
  /\ calls (snd rw) = [Enter OpCleanBuffer]
  /\ in_buffer (committed (store (snd rw))) "a"%string = true.
Proof. vm_compute. repeat split. Qed.

Lemma cleanBuffer_without_legacy_unit_witness :
  findCDSBackendID (Storages (Units svc_no_legacy)) = EmptyString
  /\ cleanBuffer svc_no_legacy
       (world_of (quiet (db_replicated units_no_legacy) 0))
     = (Ok tt, record (Enter OpCleanBuffer)
                 (world_of (quiet (db_replicated units_no_legacy) 0))).
Proof.
  split; [reflexivity|].
  apply (cleanBuffer_without_legacy_unit
           svc_no_legacy (world_of (quiet (db_replicated units_no_legacy) 0))).
  reflexivity.
Defined.

(** C4 (counterexample): one tick of the single ticker that [itemsGC]
    creates runs buffer eviction and stale-incoming completion, one after
    the other: the three stale items are completed in the tick that also
    ran the eviction. *)
Lemma itemsGC_tick_runs_two_operations :
  let w' := snd (itemsGC svc_legacy [TickC]
                   (world_of (quiet db_waiting 100000))) in
  tickers (calls w') = [60000000000]
  /\ entered (calls w') = [OpCleanBuffer; OpCleanWaitingItem]
  /\ metricsItemCompletedByGC w' = 3.
Proof. vm_compute. repeat split. Qed.

(** A run that meets the premise of C10: on the store whose deletion does
    not take, the flagged item [d] is loaded again and again. *)
Lemma sweep_returns_only_on_empty_load_witness :
  cleanItemToDelete 1000 svc_legacy
    (mkWorld (mkStuck db_flagged) [] 0 []) = None
  /\ itemPurge 1000 svc_legacy [TickC; CtxDone None]
       (mkWorld (mkStuck db_flagged) [] 0 []) = None.
Proof.
  destruct (sweep_returns_only_on_empty_load (D:=StuckStore) svc_legacy)
    as (_ & H).
  apply (H (fun d => d = mkStuck db_flagged)); [|reflexivity].
  intros d ->. exists ["d"%string], (mkStuck db_flagged), tt, (mkStuck db_flagged).
  repeat split. discriminate.
Defined.

(* ================================================================== *)
(** ** The hard-delete sweep on the reference store *)
(* ================================================================== *)

Lemma take_fault_keeps (d : RefStore) :
  committed (snd (take_fault d)) = committed d
  /\ pending (snd (take_fault d)) = pending d
  /\ next_tx (snd (take_fault d)) = next_tx d
  /\ now (snd (take_fault d)) = now d.
Proof. unfold take_fault. destruct (faults d); cbn; auto. Qed.

Lemma take_fault_used (d : RefStore) :
  exists used,
    faults d = used ++ faults (snd (take_fault d))
    /\ (fst (take_fault d) = false -> no_fault used = true)
    /\ (fst (take_fault d) = true -> used = [true]).
Proof.
  unfold take_fault. destruct (faults d) as [|b fs] eqn:E; cbn.
  - exists []. split; [symmetry; exact E|]. split; [reflexivity | discriminate].
  - exists [b]. split; [reflexivity|]. split; intros ->; reflexivity.
Qed.

(** One iteration of the sweep, on the reference store. *)
Lemma sweep_iteration (fuel : nat) (w : World RefStore) :
  cleanItemToDelete_loop (S fuel) w =
  let d1 := snd (take_fault (store w)) in
  let w1 := mkWorld d1 (logs w) (metricsItemCompletedByGC w)
                    (calls w ++ [CallLoadItemIDsToDelete OnDB 100]) in
  if fst (take_fault (store w))
  then Some (Err (ErrStore "LoadItemIDsToDelete"), w1)
  else
    let ids := loadIDsToDelete 100 (committed d1) in
    if (List.length ids =? 0)%nat then Some (Ok tt, w1)
    else
      let d2 := snd (take_fault d1) in
      let calls2 := calls w1 ++ [CallDeleteItemByIDs OnDB ids] in
      if fst (take_fault d1)
      then Some (Err (ErrStore "DeleteItemByIDs"),
                 mkWorld d2 (logs w) (metricsItemCompletedByGC w) calls2)
      else cleanItemToDelete_loop fuel
             (mkWorld (mkRef (deleteByIDs ids (committed d2)) (pending d2)
                             (next_tx d2) (faults d2) (now d2))
                      (logs w) (metricsItemCompletedByGC w) calls2).
Proof.
  cbn [cleanItemToDelete_loop]. unfold call.
  cbn [LoadItemIDsToDelete DeleteItemByIDs RefStore_Store].
  unfold ref_query, ref_exec.
  destruct (take_fault (store w)) as [[] d1]; cbn [fst snd]; [reflexivity|].
  cbn [view store logs calls metricsItemCompletedByGC].
  destruct (List.length (loadIDsToDelete 100 (committed d1)) =? 0)%nat;
    [reflexivity|].
  destruct (take_fault d1) as [[] d2]; cbn [fst snd]; reflexivity.
Qed.

Lemma flagged_deleteByIDs (ids : list ItemID) (db : DB) :
  flagged (deleteByIDs ids db)
  = filter (fun i => negb (mem i ids)) (flagged db).
Proof.
  unfold flagged, deleteByIDs. cbn [db_items].
  induction (db_items db) as [|it l IH]; [reflexivity|].
  cbn [filter]. destruct (ToDelete it) eqn:T.
  - cbn [map filter]. destruct (mem (ID it) ids); cbn [negb].
    + exact IH.
    + cbn [filter]. rewrite T. cbn [map]. now rewrite IH.
  - destruct (mem (ID it) ids); cbn [negb]; [exact IH|].
    cbn [filter]. rewrite T. exact IH.
Qed.

Lemma filter_length_le {A} (p : A -> bool) (l : list A) :
  (List.length (filter p l) <= List.length l)%nat.
Proof.
  induction l as [|a l IH]; cbn; [lia|]. destruct (p a); cbn; lia.
Qed.

Lemma flagged_shrinks (db : DB) :
  loadIDsToDelete 100 db <> [] ->
  (List.length (flagged (deleteByIDs (loadIDsToDelete 100 db) db))
   < List.length (flagged db))%nat.
Proof.
  rewrite flagged_deleteByIDs. unfold loadIDsToDelete.
  destruct (flagged db) as [|i l]; [now rewrite firstn_nil|].
  intros _. change (Z.to_nat 100) with (S (Z.to_nat 99)).
  cbn [firstn filter mem existsb]. rewrite String.eqb_refl. cbn [orb negb].
  cbn [List.length]. apply Nat.lt_succ_r, filter_length_le.
Qed.

Lemma load_empty_means_drained (db : DB) :
  (List.length (loadIDsToDelete 100 db) =? 0)%nat = true -> flagged db = [].
Proof.
  unfold loadIDsToDelete. intros H. apply Nat.eqb_eq in H.
  destruct (flagged db) as [|i l]; [reflexivity|].
  change (Z.to_nat 100) with (S (Z.to_nat 99)) in H. cbn in H. discriminate.
Qed.

Lemma sweep_terminates (n : nat) (w : World RefStore) :
  (List.length (flagged (committed (store w))) <= n)%nat ->
  exists r w', cleanItemToDelete_loop (S n) w = Some (r, w').
Proof.
  revert w. induction n as [|n IH]; intros w Hn; rewrite sweep_iteration;
    cbv zeta;
    destruct (take_fault_keeps (store w)) as (C1 & _);
    destruct (fst (take_fault (store w))); eauto;
    destruct (List.length _ =? 0)%nat eqn:E; eauto;
    destruct (take_fault_keeps (snd (take_fault (store w)))) as (C2 & _);
    destruct (fst (take_fault (snd (take_fault (store w))))); eauto.
  - exfalso. rewrite C1 in E. apply Nat.eqb_neq in E. apply E.
    unfold loadIDsToDelete.
    destruct (flagged (committed (store w))); [now rewrite firstn_nil|].
    cbn in Hn. lia.
  - apply IH. cbn [store committed]. rewrite C2, C1.
    assert (L : loadIDsToDelete 100 (committed (store w)) <> []).
    { rewrite C1 in E. apply Nat.eqb_neq in E.
      intros Hnil. apply E. now rewrite Hnil. }
    pose proof (flagged_shrinks _ L). lia.
Qed.

Lemma sweep_drained (fuel : nat) (w : World RefStore) w' :
  cleanItemToDelete_loop fuel w = Some (Ok tt, w') ->
  flagged (committed (store w')) = [].
Proof.
  revert w. induction fuel as [|fuel IH]; intros w; [discriminate|].
  rewrite sweep_iteration. cbv zeta.
  destruct (fst (take_fault (store w))); [discriminate|].
  destruct (List.length _ =? 0)%nat eqn:E.
  - intros [= <-]. cbn [store]. now apply load_empty_means_drained.
  - destruct (fst (take_fault (snd (take_fault (store w)))));
      [discriminate | apply IH].
Qed.

Lemma no_fault_app (a b : list bool) :
  no_fault (a ++ b) = no_fault a && no_fault b.
Proof. apply forallb_app. Qed.

Lemma sweep_faults (fuel : nat) (w : World RefStore) r w' :
  cleanItemToDelete_loop fuel w = Some (r, w') ->
  exists used,
    faults (store w) = used ++ faults (store w')
    /\ (r = Ok tt <-> no_fault used = true).
Proof.
  revert w. induction fuel as [|fuel IH]; intros w; [discriminate|].
  rewrite sweep_iteration. cbv zeta.
  destruct (take_fault_used (store w)) as (u1 & F1 & A1 & B1).
  destruct (fst (take_fault (store w))).
  - intros [= <- <-]. exists u1. split; [exact F1|].
    rewrite (B1 eq_refl). split; discriminate.
  - destruct (List.length _ =? 0)%nat.
    + intros [= <- <-]. exists u1. split; [exact F1|].
      split; auto.
    + destruct (take_fault_used (snd (take_fault (store w))))
        as (u2 & F2 & A2 & B2).
      destruct (fst (take_fault (snd (take_fault (store w))))).
      * intros [= <- <-]. exists (u1 ++ u2). cbn [store]. split.
        -- rewrite F1, F2 at 1. now rewrite app_assoc.
        -- rewrite no_fault_app, (B2 eq_refl). cbn.
           rewrite andb_false_r. split; discriminate.
      * intros H. apply IH in H. cbn [store faults] in H.
        destruct H as (u3 & F3 & A3).
        exists (u1 ++ u2 ++ u3). split.
        -- rewrite F1, F2 at 1. rewrite F3. now rewrite !app_assoc.
        -- rewrite !no_fault_app, (A1 eq_refl), (A2 eq_refl). cbn. exact A3.
Qed.

Lemma sweep_batches (fuel : nat) (w : World RefStore) r w' :
  cleanItemToDelete_loop fuel w = Some (r, w') ->
  exists new, calls w' = calls w ++ new /\ Forall batch_ok new.
Proof.
  revert w. induction fuel as [|fuel IH]; intros w; [discriminate|].
  rewrite sweep_iteration. cbv zeta.
  assert (L : batch_ok (CallLoadItemIDsToDelete OnDB 100)) by (split; auto).
  destruct (fst (take_fault (store w))).
  - intros [= <- <-]. eexists. split; [reflexivity|]. auto.
  - destruct (List.length _ =? 0)%nat eqn:E.
    + intros [= <- <-]. eexists. split; [reflexivity|]. auto.
    + assert (B : batch_ok (CallDeleteItemByIDs OnDB
                   (loadIDsToDelete 100
                      (committed (snd (take_fault (store w))))))).
      { split; [reflexivity|]. apply Nat.eqb_neq in E. split; [lia|].
        unfold loadIDsToDelete.
        etransitivity; [apply firstn_le_length|]. cbn. lia. }
      destruct (fst (take_fault (snd (take_fault (store w))))).
      * intros [= <- <-]. cbn [calls]. rewrite <- app_assoc.
        eexists. split; [reflexivity|]. cbn. auto.
      * intros H. apply IH in H. cbn [calls] in H.
        destruct H as (new & C & Fa). rewrite <- !app_assoc in C.
        eexists. split; [exact C|]. cbn. auto.
Qed.

Lemma deleteByIDs_keeps (ids : list ItemID) (db : DB) (it : CDNItem) :
  In it (db_items db) ->
  (forall i, In i ids -> In i (flagged db)) ->
  ~ In (ID it) (flagged db) ->
  In it (db_items (deleteByIDs ids db))
  /\ ~ In (ID it) (flagged (deleteByIDs ids db)).
Proof.
  intros Hin Hsub Hnot. split.
  - unfold deleteByIDs. cbn [db_items]. apply filter_In. split; [exact Hin|].
    apply negb_true_iff. unfold mem.
    destruct (existsb (String.eqb (ID it)) ids) eqn:E; [|reflexivity].
    apply existsb_exists in E. destruct E as (i & Hi & Heq).
    apply String.eqb_eq in Heq. subst i. exfalso. auto.
  - rewrite flagged_deleteByIDs. intros H. apply filter_In in H. tauto.
Qed.

Lemma in_firstn {A} (n : nat) (l : list A) (x : A) :
  In x (firstn n l) -> In x l.
Proof.
  intros H. rewrite <- (firstn_skipn n l). apply in_or_app. now left.
Qed.

Lemma sweep_keeps_unflagged (fuel : nat) (w : World RefStore) r w' it :
  cleanItemToDelete_loop fuel w = Some (r, w') ->
  In it (db_items (committed (store w))) ->
  ~ In (ID it) (flagged (committed (store w))) ->
  In it (db_items (committed (store w'))).
Proof.
  revert w. induction fuel as [|fuel IH]; intros w; [discriminate|].
  rewrite sweep_iteration. cbv zeta.
  destruct (take_fault_keeps (store w)) as (C1 & _).
  destruct (take_fault_keeps (snd (take_fault (store w)))) as (C2 & _).
  destruct (fst (take_fault (store w))).
  - intros [= <- <-]. cbn [store]. now rewrite C1.
  - destruct (List.length _ =? 0)%nat.
    + intros [= <- <-]. cbn [store]. now rewrite C1.
    + destruct (fst (take_fault (snd (take_fault (store w))))).
      * intros [= <- <-]. cbn [store]. now rewrite C2, C1.
      * intros H Hin Hnot. apply IH in H; [exact H| |];
          cbn [store committed]; rewrite C2, C1;
          apply deleteByIDs_keeps; auto;
          intros i Hi; unfold loadIDsToDelete in Hi;
          eapply in_firstn; exact Hi.
Qed.

(** C5: on the reference store the sweep returns within the tick for any
    backlog (enough iterations make it return); every load asks for 100
    ids and every deletion takes a batch of 1 to 100 ids on the database
    handle; it returns nil exactly when no call of the store failed, and
    then no flagged item is left; otherwise it returns the error of the
    load or deletion that failed; items whose id is not flagged are
    kept. *)
Theorem sweep_drains_backlog (s : Service) (w : World RefStore) :
  exists fuel r w',
    cleanItemToDelete fuel s w = Some (r, w')
    /\ (r = Ok tt -> flagged (committed (store w')) = [])
    /\ (exists used,
          faults (store w) = used ++ faults (store w')
          /\ (r = Ok tt <-> no_fault used = true))
    /\ (no_fault (faults (store w)) = true -> r = Ok tt)
    /\ (exists new,
          calls w' = calls w ++ Enter OpCleanItemToDelete :: new
          /\ Forall batch_ok new)
    /\ (forall it,
          In it (db_items (committed (store w))) ->
          ~ In (ID it) (flagged (committed (store w))) ->
          In it (db_items (committed (store w')))).
Proof.
  unfold cleanItemToDelete.
  set (w0 := snd (enter OpCleanItemToDelete w)).
  destruct (@sweep_terminates
              (List.length (flagged (committed (store w0)))) w0 (le_n _))
    as (r & w' & H).
  exists (S (List.length (flagged (committed (store w0))))), r, w'.
  split; [exact H|]. 
  destruct (sweep_faults _ _ H) as (used & F & A).
  repeat split.
  - intros ->. eapply sweep_drained; eauto.
  - exists used. split; [exact F | exact A].
  - intros N. apply A. change (store w0) with (store w) in F.
    rewrite F, no_fault_app in N. apply andb_true_iff in N. tauto.
  - destruct (sweep_batches _ _ H) as (new & C & Fa).
    exists new. split; [|exact Fa]. rewrite C. subst w0. cbn.
    now rewrite <- app_assoc.
  - intros it Hin Hnot. eapply sweep_keeps_unflagged; eauto.
Qed.

(* ================================================================== *)
(** ** The loops on the reference store *)
(* ================================================================== *)

Lemma sweep_flagged_le (fuel : nat) (w : World RefStore) r w' :
  cleanItemToDelete_loop fuel w = Some (r, w') ->
  (List.length (flagged (committed (store w')))
   <= List.length (flagged (committed (store w))))%nat.
Proof.
  revert w. induction fuel as [|fuel IH]; intros w; [discriminate|].
  rewrite sweep_iteration. cbv zeta.
  destruct (take_fault_keeps (store w)) as (C1 & _).
  destruct (take_fault_keeps (snd (take_fault (store w)))) as (C2 & _).
  destruct (fst (take_fault (store w))).
  - intros [= <- <-]. cbn [store]. rewrite C1. apply le_n.
  - destruct (List.length _ =? 0)%nat eqn:E.
    + intros [= <- <-]. cbn [store]. rewrite C1. apply le_n.
    + destruct (fst (take_fault (snd (take_fault (store w))))).
      * intros [= <- <-]. cbn [store]. rewrite C2, C1. apply le_n.
      * intros H. apply IH in H. cbn [store committed] in H.
        rewrite C2, C1 in H.
        assert (L : loadIDsToDelete 100 (committed (store w)) <> []).
        { rewrite C1 in E. apply Nat.eqb_neq in E.
          intros Hnil. apply E. now rewrite Hnil. }
        pose proof (flagged_shrinks _ L). lia.
Qed.

Lemma logged_store {D} (rw : Result unit * World D) :
  store (logged rw) = store (snd rw).
Proof. destruct rw as [[u|e] w]; reflexivity. Qed.

(** With one iteration more than there are flagged items, every sweep of a
    run of [itemPurge] returns, whatever the cases its [select]s take. *)
Lemma itemPurge_for_total (s : Service) (m : nat) (sel : list SelectCase)
    (w : World RefStore) :
  (List.length (flagged (committed (store w))) <= m)%nat ->
  exists st w', itemPurge_for (S m) s sel w = Some (st, w').
Proof.
  revert w. induction sel as [|c sel IH]; intros w Hm.
  - cbn. eauto.
  - destruct c; [cbn; eauto|].
    cbn [itemPurge_for]. unfold cleanItemToDelete.
    destruct (@sweep_terminates m (snd (enter OpCleanItemToDelete w)) Hm)
      as (r & w1 & H).
    rewrite H. apply IH. rewrite logged_store. cbn [snd].
    apply sweep_flagged_le in H. cbn [enter snd store] in H. lia.
Qed.

Lemma itemPurge_total (s : Service) (sel : list SelectCase)
    (w : World RefStore) :
  exists fuel st w', itemPurge fuel s sel w = Some (st, w').
Proof.
  exists (S (List.length (flagged (committed (store w))))).
  unfold itemPurge.
  destruct (@itemPurge_for_total s
              (List.length (flagged (committed (store w)))) sel
              (record (CallNewTicker (period tickPurge)) w) (le_n _))
    as (st & w' & H).
  rewrite H. destruct st; cbn; eauto.
Qed.

(** C4 (as amended): the collector runs on two tickers of one minute, not
    three.  Over any store: [itemsGC] creates one ticker and each of its
    ticks runs buffer eviction and then stale-incoming completion;
    [itemPurge] creates one ticker and each of its ticks runs the
    hard-delete sweep; at the [ctx.Done()] case [itemsGC] returns with its
    ticker stopped, and so does [itemPurge] once the sweeps of its earlier
    ticks have returned.  On the reference store enough iterations make
    every sweep return, so [itemPurge] does return at the [ctx.Done()]
    case, its ticker stopped, after one sweep per tick. *)
Theorem collector_runs_on_two_tickers :
  period tickPurge = 60 * 1000000000
  /\ period tickGC = 60 * 1000000000
  /\ (forall (D Tx : Type) (St : Store D Tx) (s : Service),
        (forall n (w : World D),
            fst (itemsGC s (repeat TickC n) w) = Selecting
            /\ tickers (calls (snd (itemsGC s (repeat TickC n) w)))
               = tickers (calls w) ++ [period tickGC]
            /\ entered (calls (snd (itemsGC s (repeat TickC n) w)))
               = entered (calls w)
                 ++ List.concat (repeat [OpCleanBuffer; OpCleanWaitingItem] n))
        /\ (forall fuel n (w : World D) st w',
              itemPurge fuel s (repeat TickC n) w = Some (st, w') ->
              st = Selecting
              /\ tickers (calls w') = tickers (calls w) ++ [period tickPurge]
              /\ entered (calls w')
                 = entered (calls w) ++ repeat OpCleanItemToDelete n)
        /\ (forall n ctxErr sel (w : World D),
              fst (itemsGC s (repeat TickC n ++ CtxDone ctxErr :: sel) w)
              = Returned
              /\ exists cs,
                   calls (snd (itemsGC s (repeat TickC n ++ CtxDone ctxErr :: sel)
                                 w))
                   = cs ++ [CallTickerStop])
        /\ (forall fuel ctxErr sel (w : World D),
              itemPurge fuel s (CtxDone ctxErr :: sel) w
              = Some (Returned,
                      record CallTickerStop
                        (ctxDone "cdn:ItemPurge: %v" ctxErr
                           (record (CallNewTicker (period tickPurge)) w))))
        /\ (forall fuel n ctxErr sel (w w1 : World D),
              itemPurge fuel s (repeat TickC n) w = Some (Selecting, w1) ->
              itemPurge fuel s (repeat TickC n ++ CtxDone ctxErr :: sel) w
              = Some (Returned,
                      record CallTickerStop
                        (ctxDone "cdn:ItemPurge: %v" ctxErr w1))))
  /\ (forall (s : Service) n ctxErr sel (w : World RefStore),
        exists fuel w1,
          itemPurge fuel s (repeat TickC n) w = Some (Selecting, w1)
          /\ itemPurge fuel s (repeat TickC n ++ CtxDone ctxErr :: sel) w
             = Some (Returned,
                     record CallTickerStop
                       (ctxDone "cdn:ItemPurge: %v" ctxErr w1))
          /\ tickers (calls w1) = tickers (calls w) ++ [period tickPurge]
          /\ entered (calls w1)
             = entered (calls w) ++ repeat OpCleanItemToDelete n).
Proof.
  split; [reflexivity|]. split; [reflexivity|]. split.
  - intros D Tx St s.
    destruct (loops_run_on_their_tickers (D:=D) s)
      as (_ & _ & A & B & C & _).
    split; [exact A|]. split; [exact B|]. split; [exact C|]. split.
    + intros fuel ctxErr sel w. reflexivity.
    + intros fuel n ctxErr sel w w1. apply itemPurge_returns_on_done.
  - intros s n ctxErr sel w.
    destruct (itemPurge_total s (repeat TickC n) w) as (fuel & st & w1 & H).
    destruct (loops_run_on_their_tickers (D:=RefStore) s)
      as (_ & _ & _ & B & _).
    destruct (B _ _ _ _ _ H) as (-> & T & E).
    exists fuel, w1. split; [exact H|]. split; [|split; assumption].
    apply itemPurge_returns_on_done. exact H.
Qed.

Lemma collector_runs_on_two_tickers_witness :
  let w := world_of (quiet db_flagged 0) in
  exists w1,
    itemPurge 2 svc_legacy (repeat TickC 2) w = Some (Selecting, w1)
    /\ tickers (calls w1) = [period tickPurge]
    /\ entered (calls w1) = repeat OpCleanItemToDelete 2
    /\ itemPurge 2 svc_legacy (repeat TickC 2 ++ [CtxDone None]) w
       = Some (Returned,
               record CallTickerStop (ctxDone "cdn:ItemPurge: %v" None w1)).
Proof.
  intros w.
  destruct collector_runs_on_two_tickers as (_ & _ & H & _).
  destruct (H RefStore nat RefStore_Store svc_legacy) as (_ & B & _ & _ & R).
  destruct (itemPurge 2 svc_legacy (repeat TickC 2) w) as [[[] w1]|] eqn:E;
    try (vm_compute in E; discriminate E).
  exists w1. split; [reflexivity|].
  destruct (B _ _ _ _ _ E) as (_ & T & En).
  split; [exact T|]. split; [exact En|].
  apply R. exact E.
Defined.

(** C7: a loop returns exactly when its [select] takes the [ctx.Done()]
    case, and then it does return: [itemsGC] always, [itemPurge] as soon
    as the sweeps of the ticks before have returned, which on the
    reference store enough iterations ensure.  An error returned by a
    tick's operation is logged and the loop goes on to its next [select]
    (in [itemsGC], an error of [cleanBuffer] does not keep
    [cleanWaitingItem] from running in the same tick). *)
Theorem loops_return_on_done_and_log_errors :
  (forall (D Tx : Type) (St : Store D Tx) (s : Service),
      (forall fuel sel (w : World D) st w',
          itemPurge fuel s sel w = Some (st, w') ->
          st = if existsb is_done sel then Returned else Selecting)
      /\ (forall sel (w : World D),
            fst (itemsGC s sel w)
            = if existsb is_done sel then Returned else Selecting)
      /\ (forall fuel sel (w : World D) e w1,
            cleanItemToDelete fuel s w = Some (Err e, w1) ->
            itemPurge_for fuel s (TickC :: sel) w
            = itemPurge_for fuel s sel (log (LogErrorWithFields e) w1))
      /\ (forall sel (w : World D) e w1,
            cleanBuffer s w = (Err e, w1) ->
            exists w2,
              itemsGC_for s (TickC :: sel) w = itemsGC_for s sel w2
              /\ In (LogErrorWithFields e) (logs w2)
              /\ entered (calls w2)
                 = entered (calls w) ++ [OpCleanBuffer; OpCleanWaitingItem])
      /\ (forall sel (w : World D) e w2,
            cleanWaitingItem s (logged (cleanBuffer s w)) = (Err e, w2) ->
            itemsGC_for s (TickC :: sel) w
            = itemsGC_for s sel (log (LogErrorWithFields e) w2))
      /\ (forall fuel pre ctxErr sel (w w1 : World D),
            itemPurge fuel s pre w = Some (Selecting, w1) ->
            itemPurge fuel s (pre ++ CtxDone ctxErr :: sel) w
            = Some (Returned,
                    record CallTickerStop
                      (ctxDone "cdn:ItemPurge: %v" ctxErr w1)))
      /\ (forall fuel ctxErr sel (w : World D) e w1,
            cleanItemToDelete fuel s
              (record (CallNewTicker (period tickPurge)) w)
            = Some (Err e, w1) ->
            itemPurge fuel s (TickC :: CtxDone ctxErr :: sel) w
            = Some (Returned,
                    record CallTickerStop
                      (ctxDone "cdn:ItemPurge: %v" ctxErr
                         (log (LogErrorWithFields e) w1)))))
  /\ (forall (s : Service) sel (w : World RefStore),
        exists fuel st w',
          itemPurge fuel s sel w = Some (st, w')
          /\ st = if existsb is_done sel then Returned else Selecting).
Proof.
  split.
  - intros D Tx St s.
    destruct (loops_log_errors_and_go_on (D:=D) s) as (A & B & C & E & F).
    split; [exact A|]. split; [exact B|]. split; [exact C|].
    split; [exact E|]. split; [exact F|]. split.
    + intros fuel pre ctxErr sel w w1. apply itemPurge_returns_on_done.
    + intros fuel ctxErr sel w e w1 H.
      unfold itemPurge. cbn [itemPurge_for]. rewrite H. reflexivity.
  - intros s sel w.
    destruct (itemPurge_total s sel w) as (fuel & st & w' & H).
    exists fuel, st, w'. split; [exact H|].
    destruct (loops_log_errors_and_go_on (D:=RefStore) s) as (A & _).
    exact (A _ _ _ _ _ H).
Qed.

(** Runs that meet the premises of C7: a failing load in the sweep, in
    the eviction and in the completion; the run of [itemPurge] logs the
    error of its tick and returns at the [ctx.Done()] case. *)
Lemma loops_return_on_done_and_log_errors_witness :
  let e1 := ErrStore "LoadItemIDsToDelete"%string in
  let w := world_of (faulty db_waiting 100000 [true; true]) in
  (exists w1,
     cleanItemToDelete 1 svc_legacy
       (record (CallNewTicker (period tickPurge)) w) = Some (Err e1, w1)
     /\ itemPurge 1 svc_legacy [TickC; CtxDone None] w
        = Some (Returned,
                record CallTickerStop (log (LogErrorWithFields e1) w1)))
  /\ (exists e w2,
        itemsGC_for svc_legacy [TickC; CtxDone None] w
        = itemsGC_for svc_legacy [CtxDone None] w2
        /\ In (LogErrorWithFields e) (logs w2)
        /\ entered (calls w2) = [OpCleanBuffer; OpCleanWaitingItem])
  /\ (exists e w2,
        cleanWaitingItem svc_legacy (logged (cleanBuffer svc_legacy w))
        = (Err e, w2)
        /\ itemsGC_for svc_legacy [TickC; CtxDone None] w
           = itemsGC_for svc_legacy [CtxDone None]
               (log (LogErrorWithFields e) w2)).
Proof.
  intros e1 w.
  destruct loops_return_on_done_and_log_errors as (H & _).
  destruct (H RefStore nat RefStore_Store svc_legacy)
    as (_ & _ & _ & H4 & H5 & _ & H7).
  split; [|split].
  - destruct (cleanItemToDelete 1 svc_legacy
                (record (CallNewTicker (period tickPurge)) w))
      as [[[u|e] w1]|] eqn:E;
      try (vm_compute in E; discriminate E).
    assert (e = e1) by (vm_compute in E; now injection E as <- _). subst e.
    exists w1. split; [reflexivity|].
    exact (H7 1%nat None [] w e1 w1 E).
  - destruct (cleanBuffer svc_legacy w) as [[u|e] w1] eqn:E;
      [vm_compute in E; discriminate E|].
    destruct (H4 [CtxDone None] w e w1 E) as (w2 & A & B & C).
    exists e, w2. auto.
  - destruct (cleanWaitingItem svc_legacy (logged (cleanBuffer svc_legacy w)))
      as [[u|e] w2] eqn:E; [vm_compute in E; discriminate E|].
    exists e, w2. split; [reflexivity|]. apply H5. exact E.
Defined.

(* ================================================================== *)
(** ** Stale-incoming completion on the reference store *)
(* ================================================================== *)

Lemma range_post_fail (iu : ItemUnit) (rest : list ItemUnit)
    (w w' : World RefStore) (e : error) (tail : list Call) :
  committed (store w') = committed (store w) ->
  now (store w') = now (store w) ->
  metricsItemCompletedByGC w' = metricsItemCompletedByGC w ->
  calls w' = calls w ++ tail ->
  failed_attempt iu tail ->
  In true (faults (store w)) ->
  range_post (iu :: rest) w (Err e, w').
Proof.
  intros C N Me Ca Fa T. exists [], (iu :: rest), tail. cbn.
  repeat split; auto.
  - rewrite Me. lia.
  - eauto.
Qed.

Lemma range_post_step (iu : ItemUnit) (rest : list ItemUnit)
    (w w1 : World RefStore) (rw : Result unit * World RefStore) :
  committed (store w1) = completeItemByID (iu_ItemID iu) (committed (store w)) ->
  now (store w1) = now (store w) ->
  metricsItemCompletedByGC w1 = metricsItemCompletedByGC w + 1 ->
  calls w1 = calls w ++ [CallBegin; CallCompleteItem iu; CallCommit] ->
  (forall b, In b (faults (store w1)) -> In b (faults (store w))) ->
  range_post rest w1 rw ->
  range_post (iu :: rest) w rw.
Proof.
  intros C N Me Ca Fs (done & left & tail & E & C' & N' & Me' & Ca' & R).
  exists (iu :: done), left, tail. repeat split.
  - cbn. now rewrite E.
  - rewrite C'. cbn. now rewrite C.
  - now rewrite N'.
  - rewrite Me', Me. cbn [List.length]. lia.
  - rewrite Ca', Ca. cbn. now rewrite <- app_assoc.
  - destruct (fst rw); [exact R|]. destruct R as [T R]. split; auto.
Qed.

Lemma cleanWaitingItem_range_post (ius : list ItemUnit) (w : World RefStore) :
  range_post ius w (cleanWaitingItem_range ius w).
Proof.
  revert w. induction ius as [|iu rest IH]; intros w.
  - exists [], [], []. cbn. rewrite app_nil_r. repeat split; auto. lia.
  - destruct w as [[c p n fs t] lg m cs].
    cbn [cleanWaitingItem_range]. unfold_gc.
    cbn [Begin completeItem Commit Rollback RefStore_Store].
    unfold ref_Begin, ref_exec, ref_Commit, ref_Rollback, take_fault.
    destruct fs as [|[] [|[] [|[] fs]]];
      repeat (progress
                (cbn [store logs calls metricsItemCompletedByGC faults
                      committed pending next_tx now pending_of pending_add
                      pending_drop fst snd apply_writes fold_left apply_write
                      app];
                 rewrite ?Nat.eqb_refl)).
    all: try (eapply range_post_step; [| | | | | apply IH]; cbn;
              rewrite <- ?app_assoc; auto; intros; cbn; tauto).
    all: eapply range_post_fail; cbn; rewrite <- ?app_assoc; cbn;
      try reflexivity; unfold failed_attempt; auto.
Qed.

Lemma cleanWaitingItem_on_ref (s : Service) (w : World RefStore) :
  let stale := loadStaleIncoming StatusItemIncoming ItemLogGC
                 (now (store w)) (committed (store w)) in
  let cs := calls w ++ [Enter OpCleanWaitingItem;
                        CallLoadOld OnDB StatusItemIncoming ItemLogGC] in
  (In true (faults (store w))
   /\ exists e w',
        cleanWaitingItem s w = (Err e, w')
        /\ committed (store w') = committed (store w)
        /\ now (store w') = now (store w)
        /\ metricsItemCompletedByGC w' = metricsItemCompletedByGC w
        /\ calls w' = cs)
  \/ (exists w1,
        cleanWaitingItem s w = cleanWaitingItem_range stale w1
        /\ committed (store w1) = committed (store w)
        /\ now (store w1) = now (store w)
        /\ metricsItemCompletedByGC w1 = metricsItemCompletedByGC w
        /\ calls w1 = cs
        /\ (forall b, In b (faults (store w1)) -> In b (faults (store w)))).
Proof.
  destruct w as [[c p n fs t] lg m cs0].
  unfold cleanWaitingItem. unfold_gc.
  cbn [LoadOldItemUnitByItemStatusAndDuration RefStore_Store].
  unfold ref_query, take_fault.
  destruct fs as [|[] fs];
    cbn [store logs calls metricsItemCompletedByGC faults committed pending
         next_tx now fst snd view]; rewrite <- ?app_assoc; cbn [app].
  - right. eexists. split; [reflexivity|]. cbn. repeat split; auto.
  - left. split; [now left|]. do 2 eexists. split; [reflexivity|].
    cbn. repeat split; auto.
  - right. eexists. split; [reflexivity|]. cbn. repeat split; auto.
Qed.

Lemma complete_all_item_units (done : list ItemUnit) (db : DB) :
  db_item_units (complete_all done db) = db_item_units db.
Proof.
  revert db. induction done as [|iu done IH]; intros db; [reflexivity|].
  unfold complete_all in *. cbn [fold_left]. now rewrite IH.
Qed.

Lemma complete_all_items (done : list ItemUnit) (db : DB) :
  db_items (complete_all done db)
  = map (complete_in (map iu_ItemID done)) (db_items db).
Proof.
  revert db. induction done as [|iu done IH]; intros db.
  - cbn. unfold complete_in. cbn. now rewrite map_id.
  - unfold complete_all in *. cbn [fold_left]. rewrite IH.
    cbn [completeItemByID db_items map]. rewrite map_map.
    apply map_ext. intros it. unfold complete_in.
    cbn [mem existsb]. fold (mem (ID it) (map iu_ItemID done)).
    destruct (String.eqb (ID it) (iu_ItemID iu)); cbn [orb ID complete].
    + now destruct (mem (ID it) (map iu_ItemID done)).
    + reflexivity.
Qed.

Lemma mem_In (x : string) (l : list string) : mem x l = true <-> In x l.
Proof.
  unfold mem. rewrite existsb_exists. split.
  - intros (y & Hy & E). apply String.eqb_eq in E. now subst.
  - intros H. exists x. split; [exact H | apply String.eqb_refl].
Qed.

Lemma has_status_after (ids : list ItemID) (db : DB) (i : ItemID)
    (st : ItemStatus) :
  ~ In i ids ->
  existsb (fun it => String.eqb (ID it) i && ItemStatus_eqb (Status it) st)
          (map (complete_in ids) (db_items db))
  = has_status db i st.
Proof.
  intros Hn. unfold has_status.
  induction (db_items db) as [|it l IH]; [reflexivity|].
  cbn [map existsb]. rewrite IH. f_equal.
  unfold complete_in. destruct (mem (ID it) ids) eqn:M; [|reflexivity].
  apply mem_In in M. cbn [ID complete Status].
  destruct (String.eqb (ID it) i) eqn:E; [|reflexivity].
  apply String.eqb_eq in E. subst i. contradiction.
Qed.

Lemma stale_after (done : list ItemUnit) (db : DB) (t : Z) (iu : ItemUnit) :
  In iu (loadStaleIncoming StatusItemIncoming ItemLogGC t db) ->
  ~ In (iu_ItemID iu) (map iu_ItemID done) ->
  In iu (loadStaleIncoming StatusItemIncoming ItemLogGC t (complete_all done db)).
Proof.
  unfold loadStaleIncoming. rewrite !filter_In, complete_all_item_units.
  intros [Hin Hp] Hn. split; [exact Hin|].
  unfold has_status at 1. rewrite complete_all_items.
  rewrite has_status_after by exact Hn. exact Hp.
Qed.

(** On the reference store: the item-units done stay completed, nothing
    else is committed, and the item-units left whose item was not
    completed in the tick are loaded again by the next tick. *)
Lemma cleanWaitingItem_on_reference_store (s : Service)
    (w : World RefStore) :
  let db := committed (store w) in
  let stale := loadStaleIncoming StatusItemIncoming ItemLogGC
                 (now (store w)) db in
  let r := fst (cleanWaitingItem s w) in
  let w' := snd (cleanWaitingItem s w) in
  exists done left tail,
    stale = done ++ left
    /\ calls w'
       = calls w ++ Enter OpCleanWaitingItem
                 :: CallLoadOld OnDB StatusItemIncoming ItemLogGC
                 :: transactions done ++ tail
    /\ committed (store w') = complete_all done db
    /\ metricsItemCompletedByGC w'
       = metricsItemCompletedByGC w + Z.of_nat (List.length done)
    /\ match r with
       | Ok _ => left = [] /\ tail = []
       | Err _ =>
         In true (faults (store w))
         /\ ((done = [] /\ tail = [])
             \/ exists iu left', left = iu :: left' /\ failed_attempt iu tail)
       end
    /\ (forall iu,
          In iu left -> ~ In (iu_ItemID iu) (map iu_ItemID done) ->
          In iu (loadStaleIncoming StatusItemIncoming ItemLogGC
                   (now (store w')) (committed (store w')))).
Proof.
  cbv zeta.
  destruct (cleanWaitingItem_on_ref s w)
    as [(T & e & w' & E & C & N & Me & Ca)
       |(w1 & E & C & N & Me & Ca & Fs)]; rewrite E; cbn [fst snd].
  - exists [], (loadStaleIncoming StatusItemIncoming ItemLogGC
                  (now (store w)) (committed (store w))), [].
    cbn. rewrite C, N, Me, Ca.
    repeat split; auto; try lia.
  - match goal with
    | |- context [cleanWaitingItem_range ?l w1] =>
      destruct (cleanWaitingItem_range_post l w1)
        as (done & left & tail & Es & C' & N' & Me' & Ca' & R)
    end.
    exists done, left, tail.
    rewrite C', N', Me', Ca', C, N, Me, Ca. rewrite <- app_assoc.
    repeat split; auto.
    + destruct (fst (cleanWaitingItem_range _ w1)); [exact R|].
      destruct R as [T R]. split; auto.
    + intros iu Hin Hn. apply stale_after; [|exact Hn].
      rewrite Es. apply in_or_app. now right.
Qed.

Lemma no_fault_not_in (fs : list bool) :
  no_fault fs = true -> ~ In true fs.
Proof.
  unfold no_fault. rewrite forallb_forall. intros H T.
  apply H in T. discriminate.
Qed.

Lemma completions_app (a b : list Call) :
  completions (a ++ b) = completions a ++ completions b.
Proof.
  induction a as [|c a IH]; cbn; [reflexivity|].
  destruct c; cbn; rewrite ?IH; reflexivity.
Qed.

Lemma completions_transactions (done : list ItemUnit) :
  completions (transactions done) = done.
Proof.
  induction done as [|iu done IH]; [reflexivity|].
  cbn. f_equal. exact IH.
Qed.

Lemma complete_completed (it : CDNItem) :
  Status it = StatusItemCompleted -> complete it = it.
Proof. destruct it as [i a st td]. cbn. now intros ->. Qed.

(** C6: [cleanWaitingItem] asks for the status Incoming and the age
    [ItemLogGC] = 86400 seconds.  On the reference store the item-units it
    calls [completeItem] on are a prefix of the item-units whose item is
    Incoming and whose last write is more than 86400 seconds old, all of
    them when no call of the store fails; the items it completes are
    items of such item-units; a Completed item, and an item none of whose
    item-units is older than 86400 seconds, is left as it was. *)
Theorem cleanWaitingItem_completes_stale_incoming_only (s : Service)
    (w : World RefStore) :
  let db := committed (store w) in
  let t := now (store w) in
  let stale :=
    filter (fun iu => has_status db (iu_ItemID iu) StatusItemIncoming
                      && (86400 <? t - iu_LastModified iu))
           (db_item_units db) in
  let r := fst (cleanWaitingItem s w) in
  let w' := snd (cleanWaitingItem s w) in
  ItemLogGC = 86400
  /\ (exists attempted rest,
        completions (calls w') = completions (calls w) ++ attempted
        /\ stale = attempted ++ rest
        /\ (no_fault (faults (store w)) = true -> rest = [] /\ r = Ok tt))
  /\ (exists done,
        (forall iu, In iu done -> In iu stale)
        /\ db_items (committed (store w'))
           = map (complete_in (map iu_ItemID done)) (db_items db)
        /\ (no_fault (faults (store w)) = true -> done = stale))
  /\ (forall it,
        In it (db_items db) -> Status it = StatusItemCompleted ->
        In it (db_items (committed (store w'))))
  /\ (forall it,
        In it (db_items db) ->
        (forall iu, In iu (db_item_units db) -> iu_ItemID iu = ID it ->
                    t - iu_LastModified iu <= 86400) ->
        In it (db_items (committed (store w')))).
Proof.
  cbv zeta. split; [reflexivity|].
  change (filter _ (db_item_units (committed (store w))))
    with (loadStaleIncoming StatusItemIncoming ItemLogGC (now (store w))
            (committed (store w))).
  set (stale := loadStaleIncoming _ _ _ _).
  assert (Run : exists done left tail,
             stale = done ++ left
             /\ completions (calls (snd (cleanWaitingItem s w)))
                = completions (calls w) ++ done ++ completions tail
             /\ committed (store (snd (cleanWaitingItem s w)))
                = complete_all done (committed (store w))
             /\ match fst (cleanWaitingItem s w) with
                | Ok _ => left = [] /\ tail = []
                | Err _ =>
                  In true (faults (store w))
                  /\ ((done = [] /\ tail = [])
                      \/ exists iu left',
                           left = iu :: left' /\ failed_attempt iu tail)
                end).
  { destruct (cleanWaitingItem_on_ref s w)
      as [(T & e & w' & E & C & N & Me & Ca)
         |(w1 & E & C & N & Me & Ca & Fs)]; rewrite E; cbn [fst snd];
      fold stale.
    - exists [], stale, []. rewrite C, Ca, completions_app. cbn.
      rewrite !app_nil_r. repeat split; auto.
    - destruct (cleanWaitingItem_range_post stale w1)
        as (done & left & tail & Es & C' & N' & Me' & Ca' & R).
      exists done, left, tail. rewrite C', Ca', C, Ca.
      rewrite !completions_app, completions_transactions. cbn.
      rewrite app_nil_r. repeat split; auto.
      destruct (fst (cleanWaitingItem_range stale w1)); [exact R|].
      destruct R as [T R]. split; auto. }
  destruct Run as (done & left & tail & Es & Co & C & R).
  assert (Sub : forall iu, In iu done -> In iu stale).
  { intros iu H. rewrite Es. apply in_or_app. now left. }
  assert (NF : no_fault (faults (store w)) = true ->
               left = [] /\ tail = [] /\ fst (cleanWaitingItem s w) = Ok tt).
  { intros N. destruct (fst (cleanWaitingItem s w)) as [[]|e].
    - destruct R; auto.
    - destruct R as [T _]. exfalso. eapply no_fault_not_in; eauto. }
  assert (Items : db_items (committed (store (snd (cleanWaitingItem s w))))
                  = map (complete_in (map iu_ItemID done))
                        (db_items (committed (store w)))).
  { rewrite C. apply complete_all_items. }
  repeat split.
  - rewrite Co. clear Co C Items.
    destruct (fst (cleanWaitingItem s w)) as [u|e] eqn:Er.
    + destruct R as [-> ->]. exists done, []. cbn [completions].
      rewrite !app_nil_r. rewrite app_nil_r in Es.
      repeat split; auto. now destruct u.
    + assert (No : no_fault (faults (store w)) = true -> False)
        by (destruct R as [T _]; intros N; eapply no_fault_not_in; eauto).
      destruct R as [_ [[-> ->]|(iu & left' & -> & Fa)]].
      * exists [], left. cbn [completions app].
        repeat split; auto; exfalso; apply No; assumption.
      * destruct Fa as [->|[->| ->]]; cbn [completions].
        -- exists done, (iu :: left'). rewrite app_nil_r.
           repeat split; auto; exfalso; apply No; assumption.
        -- exists (done ++ [iu]), left'. rewrite <- app_assoc. cbn [app].
           repeat split; auto; exfalso; apply No; assumption.
        -- exists (done ++ [iu]), left'. rewrite <- app_assoc. cbn [app].
           repeat split; auto; exfalso; apply No; assumption.
  - exists done. repeat split; auto.
    intros N. destruct (NF N) as (-> & _). now rewrite app_nil_r in Es.
  - intros it Hin Hc. rewrite Items.
    replace it with (complete_in (map iu_ItemID done) it) at 1.
    + now apply in_map.
    + unfold complete_in. destruct (mem _ _); [|reflexivity].
      now apply complete_completed.
  - intros it Hin Hy. rewrite Items.
    replace it with (complete_in (map iu_ItemID done) it) at 1.
    + now apply in_map.
    + unfold complete_in. destruct (mem _ _) eqn:M; [|reflexivity].
      exfalso. apply mem_In, in_map_iff in M.
      destruct M as (iu & Eid & Hd). apply Sub in Hd.
      unfold stale, loadStaleIncoming in Hd. apply filter_In in Hd.
      destruct Hd as [Hiu Hp]. apply andb_true_iff in Hp.
      destruct Hp as [_ Hage]. apply Z.ltb_lt in Hage.
      specialize (Hy iu Hiu Eid). unfold ItemLogGC in Hage. lia.
Qed.



Lemma cleanWaitingItem_completes_stale_incoming_only_witness :
  let w := world_of (quiet db_waiting 100000) in
  no_fault (faults (store w)) = true
  /\ fst (cleanWaitingItem svc_legacy w) = Ok tt
  /\ completions (calls (snd (cleanWaitingItem svc_legacy w)))
     = db_item_units db_waiting.
Proof.
  intros w.
  destruct (cleanWaitingItem_completes_stale_incoming_only svc_legacy w)
    as (_ & (attempted & rest & Co & Es & NF) & _).
  destruct (NF eq_refl) as [-> Ok_]. rewrite app_nil_r in Es.
  split; [reflexivity|]. split; [exact Ok_|].
  rewrite Co, <- Es. reflexivity.
Defined.

(** On the reference store, a [Begin] that fails on the first stale item
    leaves every item as it was. *)
Example cleanWaitingItem_on_reference_store_run :
  let w := world_of (faulty db_waiting 100000 [false; true]) in
  exists done left tail,
    db_item_units db_waiting = done ++ left
    /\ committed (store (snd (cleanWaitingItem svc_legacy w)))
       = complete_all done db_waiting
    /\ left <> [] /\ tail = [CallBegin].
Proof.
  intros w.
  destruct (cleanWaitingItem_on_reference_store svc_legacy w)
    as (done & left & tail & Es & Ca & C & Me & R & Re).
  exists done, left, tail.
  assert (Hc : calls (snd (cleanWaitingItem svc_legacy w))
               = [Enter OpCleanWaitingItem;
                  CallLoadOld OnDB StatusItemIncoming ItemLogGC; CallBegin])
    by (vm_compute; reflexivity).
  rewrite Hc in Ca. cbn [calls w world_of app] in Ca.
  injection Ca as Ca.
  destruct done as [|iu done]; [|discriminate Ca]. cbn in Ca. subst tail.
  repeat split; auto.
  cbn in Es. rewrite <- Es. discriminate.
Qed.


(** A backlog of 250 flagged items is drained in one call of the sweep, by
    batches of 100, 100 and 50; the item that is not flagged stays. *)
Example sweep_250 :
  exists w',
    cleanItemToDelete 4 svc_legacy (world_of (quiet (db_backlog 250) 0))
    = Some (Ok tt, w')
    /\ deletions (calls w') = [100; 100; 50]%nat
    /\ map ID (db_items (committed (store w'))) = ["keep"%string].
Proof. eexists. vm_compute. repeat split. Qed.

Lemma sweep_drains_backlog_witness :
  exists fuel w',
    cleanItemToDelete fuel svc_legacy (world_of (quiet (db_backlog 250) 0))
    = Some (Ok tt, w')
    /\ flagged (committed (store w')) = [].
Proof.
  destruct (sweep_drains_backlog svc_legacy
              (world_of (quiet (db_backlog 250) 0)))
    as (fuel & r & w' & H & Dr & _ & NF & _).
  rewrite (NF eq_refl) in H. exists fuel, w'. split; [exact H|].
  apply Dr. apply NF. reflexivity.
Defined.

(* ================================================================== *)
(** ** Mark to delete *)
(* ================================================================== *)

Module RegistryFacts.
Import Registry.

Lemma mark_flagged (it : CDNItem) : ToDelete it = true -> mark it = it.
Proof. destruct it as [i a st td]. cbn. now intros ->. Qed.

(** What a marking writes in a row: the flag is set when the row is hit
    and keeps its value otherwise, the other fields are as before. *)
Lemma mark_when (hit : bool) (it : CDNItem) :
  (if hit then mark it else it)
  = mkItem (ID it) (APIRef it) (Status it) (ToDelete it || hit).
Proof.
  destruct it as [i a st td]. destruct hit; cbn.
  - now rewrite orb_true_r.
  - now rewrite orb_false_r.
Qed.

Lemma markToDelete_items (sel : CDNMarkDelete) (db : DB) :
  db_items (markToDelete sel db)
  = map (fun it => mkItem (ID it) (APIRef it) (Status it)
                          (ToDelete it || selects sel it))
        (db_items db).
Proof.
  unfold markToDelete. cbn [db_items]. apply map_ext.
  intros it. apply mark_when.
Qed.

Lemma markToDelete_flagged (sel : CDNMarkDelete) (db : DB) (i : ItemID) :
  In i (flagged (markToDelete sel db))
  <-> In i (flagged db)
      \/ exists it, In it (db_items db) /\ ID it = i /\ selects sel it = true.
Proof.
  unfold flagged. rewrite markToDelete_items. split.
  - intros H. apply in_map_iff in H. destruct H as (it' & <- & H).
    apply filter_In in H. destruct H as [H T].
    apply in_map_iff in H. destruct H as (it & <- & Hin).
    cbn [ToDelete ID] in *. apply orb_true_iff in T. destruct T as [T|T].
    + left. apply in_map_iff. exists it. split; [reflexivity|].
      apply filter_In. auto.
    + right. exists it. auto.
  - intros [H|(it & Hin & <- & Hs)].
    + apply in_map_iff in H. destruct H as (it & <- & H).
      apply filter_In in H. destruct H as [Hin T].
      apply in_map_iff.
      exists (mkItem (ID it) (APIRef it) (Status it)
                     (ToDelete it || selects sel it)).
      split; [reflexivity|]. apply filter_In. split.
      * apply in_map_iff. exists it. auto.
      * cbn. rewrite T. reflexivity.
    + apply in_map_iff.
      exists (mkItem (ID it) (APIRef it) (Status it)
                     (ToDelete it || selects sel it)).
      split; [reflexivity|]. apply filter_In. split.
      * apply in_map_iff. exists it. auto.
      * cbn. rewrite Hs. apply orb_true_r.
Qed.

Lemma selects_run (R W : Z) (it : CDNItem) :
  R <> 0 -> selects (mkMarkDelete R W) it = (RunID (APIRef it) =? R).
Proof.
  intros HR. unfold selects, given. cbn.
  apply Z.eqb_neq in HR. now rewrite HR.
Qed.

Lemma selects_workflow (W : Z) (it : CDNItem) :
  W <> 0 -> selects (mkMarkDelete 0 W) it = (WorkflowID (APIRef it) =? W).
Proof.
  intros HW. unfold selects, given. cbn.
  apply Z.eqb_neq in HW. now rewrite HW.
Qed.

(** C8: marking with a run id [R] rewrites every item row to the same id,
    reference and status with the flag set when the item's run is [R] and
    as it was otherwise; marking with only a workflow id [W] does the same
    by the item's workflow.  So the items flagged afterwards are those
    flagged before and those of the run (of the workflow), an item of the
    run comes out flagged, an item of another run comes out as the same
    row, a flag that was set stays set, and no other table is touched. *)
Theorem markToDelete_flags_exactly_selected (R W : Z) (db : DB) :
  (R <> 0 ->
   db_items (markToDelete (mkMarkDelete R W) db)
   = map (fun it => mkItem (ID it) (APIRef it) (Status it)
                           (ToDelete it || (RunID (APIRef it) =? R)))
         (db_items db))
  /\ (W <> 0 ->
      db_items (markToDelete (mkMarkDelete 0 W) db)
      = map (fun it => mkItem (ID it) (APIRef it) (Status it)
                              (ToDelete it || (WorkflowID (APIRef it) =? W)))
            (db_items db))
  /\ (R <> 0 ->
      forall i,
        In i (flagged (markToDelete (mkMarkDelete R W) db))
        <-> In i (flagged db)
            \/ exists it,
                 In it (db_items db) /\ ID it = i /\ RunID (APIRef it) = R)
  /\ (W <> 0 ->
      forall i,
        In i (flagged (markToDelete (mkMarkDelete 0 W) db))
        <-> In i (flagged db)
            \/ exists it,
                 In it (db_items db) /\ ID it = i
                 /\ WorkflowID (APIRef it) = W)
  /\ (R <> 0 ->
      forall it,
        In it (db_items db) ->
        (RunID (APIRef it) = R ->
         In (mkItem (ID it) (APIRef it) (Status it) true)
            (db_items (markToDelete (mkMarkDelete R W) db)))
        /\ (RunID (APIRef it) <> R ->
            In it (db_items (markToDelete (mkMarkDelete R W) db))))
  /\ (W <> 0 ->
      forall it,
        In it (db_items db) ->
        (WorkflowID (APIRef it) = W ->
         In (mkItem (ID it) (APIRef it) (Status it) true)
            (db_items (markToDelete (mkMarkDelete 0 W) db)))
        /\ (WorkflowID (APIRef it) <> W ->
            In it (db_items (markToDelete (mkMarkDelete 0 W) db))))
  /\ (forall it,
        In it (db_items db) -> ToDelete it = true ->
        In it (db_items (markToDelete (mkMarkDelete R W) db)))
  /\ db_item_units (markToDelete (mkMarkDelete R W) db) = db_item_units db
  /\ db_units (markToDelete (mkMarkDelete R W) db) = db_units db
  /\ db_lines (markToDelete (mkMarkDelete R W) db) = db_lines db
  /\ fst (markItemToDeleteHandler (mkMarkDelete R W) db) = 204.
Proof.
  assert (Hrow : forall sel it,
             In it (db_items db) ->
             (selects sel it = true ->
              In (mkItem (ID it) (APIRef it) (Status it) true)
                 (db_items (markToDelete sel db)))
             /\ (selects sel it = false ->
                 In it (db_items (markToDelete sel db)))).
  { intros sel it Hin. rewrite markToDelete_items. split; intros Hs.
    - apply in_map_iff. exists it. split; [|exact Hin].
      rewrite Hs, orb_true_r. reflexivity.
    - apply in_map_iff. exists it. split; [|exact Hin].
      rewrite Hs, orb_false_r. now destruct it. }
  split; [|split; [|split; [|split; [|split; [|split; [|split]]]]]].
  - intros HR. rewrite markToDelete_items. apply map_ext.
    intros it. now rewrite selects_run.
  - intros HW. rewrite markToDelete_items. apply map_ext.
    intros it. now rewrite selects_workflow.
  - intros HR i. rewrite markToDelete_flagged.
    split; (intros [H|(it & Hin & Hid & Hs)]; [now left | right]);
      exists it; (split; [exact Hin|]); (split; [exact Hid|]).
    + rewrite selects_run in Hs by exact HR. now apply Z.eqb_eq.
    + rewrite selects_run by exact HR. now apply Z.eqb_eq.
  - intros HW i. rewrite markToDelete_flagged.
    split; (intros [H|(it & Hin & Hid & Hs)]; [now left | right]);
      exists it; (split; [exact Hin|]); (split; [exact Hid|]).
    + rewrite selects_workflow in Hs by exact HW. now apply Z.eqb_eq.
    + rewrite selects_workflow by exact HW. now apply Z.eqb_eq.
  - intros HR it Hin. destruct (Hrow (mkMarkDelete R W) it Hin) as [A B].
    split; intros H.
    + apply A. rewrite selects_run by exact HR. now apply Z.eqb_eq.
    + apply B. rewrite selects_run by exact HR. now apply Z.eqb_neq.
  - intros HW it Hin. destruct (Hrow (mkMarkDelete 0 W) it Hin) as [A B].
    split; intros H.
    + apply A. rewrite selects_workflow by exact HW. now apply Z.eqb_eq.
    + apply B. rewrite selects_workflow by exact HW. now apply Z.eqb_neq.
  - intros it Hin Hf. unfold markToDelete. cbn [db_items].
    apply in_map_iff. exists it. split; [|exact Hin].
    destruct (selects _ it); [now apply mark_flagged | reflexivity].
  - repeat split.
Qed.

(** The requests of [TestMarkItemToDeleteHandler]: [{RunID: 2}] flags the
    second item only, then [{WorkflowID: 1}] flags the first one as well
    and the third one stays as it was. *)
Lemma markToDelete_flags_exactly_selected_witness :
  let db1 := snd (markItemToDeleteHandler (mkMarkDelete 2 0) test_db) in
  let db2 := snd (markItemToDeleteHandler (mkMarkDelete 0 1) db1) in
  (2 <> 0 /\ 1 <> 0)
  /\ db_items db1
     = [item1; mkItem "item2"%string (mkAPIRef 2 2) StatusItemIncoming true;
        item3]
  /\ db_items db2
     = [mkItem "item1"%string (mkAPIRef 1 1) StatusItemIncoming true;
        mkItem "item2"%string (mkAPIRef 2 2) StatusItemIncoming true;
        item3]
  /\ (forall i, In i (flagged db1) <-> i = "item2"%string)
  /\ In (mkItem "item1"%string (mkAPIRef 1 1) StatusItemIncoming true)
        (db_items db2).
Proof.
  intros db1 db2. split; [split; discriminate|].
  pose proof (markToDelete_flags_exactly_selected 2 0 test_db) as H1.
  pose proof (markToDelete_flags_exactly_selected 0 1 db1) as H2.
  destruct H1 as (A1 & _ & F1 & _).
  destruct H2 as (_ & B2 & _ & _ & _ & R2 & _).
  split; [|split; [|split]].
  - exact (A1 ltac:(discriminate)).
  - exact (B2 ltac:(discriminate)).
  - intros i. split.
    + intros H. apply (proj1 (F1 ltac:(discriminate) i)) in H.
      destruct H as [[]|(it & [<-|[<-|[<-|[]]]] & <- & HR)];
        cbn in HR; try discriminate HR. reflexivity.
    + intros ->. apply (proj2 (F1 ltac:(discriminate) "item2"%string)).
      right. exists item2. cbn. auto.
  - assert (Hin : In item1 (db_items db1)) by (left; reflexivity).
    exact (proj1 (R2 ltac:(discriminate) item1 Hin) eq_refl).
Defined.

(** The assertions of [TestMarkItemToDeleteHandler], read back with
    [item.LoadByID] after each request. *)
Example mark_test :
  let db1 := snd (markItemToDeleteHandler (mkMarkDelete 2 0) test_db) in
  let db2 := snd (markItemToDeleteHandler (mkMarkDelete 0 1) db1) in
  fst (markItemToDeleteHandler (mkMarkDelete 2 0) test_db) = 204
  /\ option_map ToDelete (LoadByID "item3"%string db1) = Some false
  /\ option_map ToDelete (LoadByID "item2"%string db1) = Some true
  /\ option_map ToDelete (LoadByID "item1"%string db1) = Some false
  /\ fst (markItemToDeleteHandler (mkMarkDelete 0 1) db1) = 204
  /\ option_map ToDelete (LoadByID "item3"%string db2) = Some false
  /\ option_map ToDelete (LoadByID "item2"%string db2) = Some true
  /\ option_map ToDelete (LoadByID "item1"%string db2) = Some true.
Proof. vm_compute. repeat split. Qed.

End RegistryFacts.

(* ================================================================== *)
(** ** Streaming *)
(* ================================================================== *)

Module StreamFacts.
Import Stream.

Section Lines.

Variable value : nat -> string.

Lemma insert_line_last (l : Line) (ls : list Line) :
  (forall x, In x ls -> Number x < Number l) ->
  insert_line l ls = (true, ls ++ [l]).
Proof.
  induction ls as [|x ls IH]; intros H; [reflexivity|].
  cbn [insert_line].
  assert (Hx : Number x < Number l) by (apply H; now left).
  destruct (Z.ltb_spec (Number l) (Number x)); [lia|].
  destruct (Z.eqb_spec (Number l) (Number x)); [lia|].
  rewrite IH; [reflexivity|]. intros y Hy. apply H. now right.
Qed.

Lemma storeLogs_next (m : nat) (h : Hub) :
  hub_lines h = map (message value) (seq 0 m) ->
  storeLogs (message value m) h
  = mkHub (map (message value) (seq 0 (S m))) (map (deliver (message value m)) (hub_subs h)).
Proof.
  intros H. unfold storeLogs. rewrite H, insert_line_last.
  - now rewrite seq_S, map_app.
  - intros x Hx. apply in_map_iff in Hx. destruct Hx as (i & <- & Hi).
    apply in_seq in Hi. cbn. lia.
Qed.

Lemma sendMessages_next (n m : nat) (h : Hub) :
  hub_lines h = map (message value) (seq 0 m) ->
  sendMessages value m n h
  = mkHub (map (message value) (seq 0 (m + n)))
          (map (deliver_all (map (message value) (seq m n))) (hub_subs h)).
Proof.
  revert m h. induction n as [|n IH]; intros m h H.
  - cbn. rewrite Nat.add_0_r, <- H, map_id. now destruct h.
  - unfold sendMessages in *. cbn [seq fold_left].
    rewrite storeLogs_next by exact H.
    rewrite IH by reflexivity. cbn [hub_subs hub_lines].
    rewrite map_map, Nat.add_succ_r. reflexivity.
Qed.

Lemma backlog_from (k m : nat) :
  filter (fun l => Z.of_nat k <=? Number l) (map (message value) (seq 0 m))
  = map (message value) (seq k (m - k)).
Proof.
  induction m as [|m IH]; [reflexivity|].
  rewrite seq_S, map_app, filter_app, IH. cbn [map filter message Number plus].
  destruct (Z.leb_spec (Z.of_nat k) (Z.of_nat m)).
  - replace (S m - k)%nat with (S (m - k)) by lia.
    rewrite seq_S, map_app. cbn [map].
    replace (k + (m - k))%nat with m by lia. reflexivity.
  - replace (S m - k)%nat with O by lia.
    replace (m - k)%nat with O by lia. reflexivity.
Qed.

Lemma next_after (n a : nat) :
  fold_left (fun next l => Z.max next (Number l + 1))
            (map (message value) (seq a n)) (Z.of_nat a)
  = Z.of_nat (a + n).
Proof.
  revert a. induction n as [|n IH]; intros a.
  - cbn. now rewrite Nat.add_0_r.
  - cbn [seq map fold_left message Number].
    replace (Z.max (Z.of_nat a) (Z.of_nat a + 1)) with (Z.of_nat (S a)) by lia.
    rewrite IH. f_equal. lia.
Qed.

Lemma replay_from (k m : nat) :
  replay (Z.of_nat k) (map (message value) (seq 0 m))
  = mkSub (Z.of_nat (k + (m - k))) (map (message value) (seq k (m - k))).
Proof.
  unfold replay. rewrite backlog_from, next_after. reflexivity.
Qed.

Lemma deliver_from (n a c : nat) (rs : list Line) :
  (a <= c)%nat ->
  deliver_all (map (message value) (seq a n)) (mkSub (Z.of_nat c) rs)
  = mkSub (Z.of_nat (Nat.max c (a + n)))
          (rs ++ map (message value) (seq c (a + n - c))).
Proof.
  revert a c rs. induction n as [|n IH]; intros a c rs Hac.
  - cbn. rewrite Nat.add_0_r.
    replace (a - c)%nat with O by lia. cbn. rewrite app_nil_r.
    now replace (Nat.max c a) with c by lia.
  - cbn [seq map deliver_all fold_left].
    unfold deliver at 2. cbn [sub_next sub_received message Number].
    destruct (Z.leb_spec (Z.of_nat c) (Z.of_nat a)).
    + assert (c = a) by lia. subst c.
      replace (Z.of_nat a + 1) with (Z.of_nat (S a)) by lia.
      change (fold_left (fun acc l => deliver l acc) ?ls ?s)
        with (deliver_all ls s).
      rewrite IH by lia.
      replace (a + S n - a)%nat with (S n) by lia.
      replace (S a + n - S a)%nat with n by lia.
      rewrite <- app_assoc. cbn [app seq map message].
      f_equal. f_equal. lia.
    + change (fold_left (fun acc l => deliver l acc) ?ls ?s)
        with (deliver_all ls s).
      rewrite IH by lia.
      replace (a + S n)%nat with (S a + n)%nat by lia. reflexivity.
Qed.

(** A subscription opened with offset [k] after [before] lines, once
    [after] more lines were ingested. *)
Lemma received_from (k before after : nat) :
  let h1 := sendMessages value 0 before emptyHub in
  let h2 := snd (subscribe (Some (Z.of_nat k)) h1) in
  let h3 := sendMessages value before after h2 in
  received (fst (subscribe (Some (Z.of_nat k)) h1)) h3
  = map (message value) (seq k (before + after - k)).
Proof.
  cbv zeta. rewrite (@sendMessages_next before 0 emptyHub) by reflexivity.
  cbn [subscribe hub_subs hub_lines map List.length app fst snd plus emptyHub].
  rewrite sendMessages_next by reflexivity.
  cbn [hub_subs map received nth_error].
  rewrite replay_from, deliver_from by lia.
  cbn [sub_received]. rewrite <- map_app. f_equal.
  destruct (Nat.le_gt_cases k before).
  - replace (k + (before - k))%nat with before by lia.
    replace (before + after - before)%nat with after by lia.
    replace (before + after - k)%nat with ((before - k) + after)%nat by lia.
    rewrite seq_app. now replace (k + (before - k))%nat with before by lia.
  - replace (before - k)%nat with O by lia. cbn [seq app].
    now rewrite Nat.add_0_r.
Qed.

End Lines.

(** C9: the lines are numbered from 0 in ingestion order; a subscriber
    opened without offset, at any point of the ingestion, has received
    exactly the lines 0 to N-1 in ascending order once N lines are
    ingested, and a subscriber opened with offset [k] exactly the lines
    [k] to N-1: no number twice, none below [k]. *)
Theorem subscriber_receives_lines_from_offset (value : nat -> string)
    (k before after : nat) :
  let N := (before + after)%nat in
  let h1 := sendMessages value 0 before emptyHub in
  let with_offset := subscribe (Some (Z.of_nat k)) h1 in
  let without := subscribe None h1 in
  received (fst without) (sendMessages value before after (snd without))
  = map (message value) (seq 0 N)
  /\ received (fst with_offset)
              (sendMessages value before after (snd with_offset))
     = map (message value) (seq k (N - k))
  /\ NoDup (map Number
              (received (fst with_offset)
                        (sendMessages value before after (snd with_offset))))
  /\ (forall l,
        In l (received (fst with_offset)
                       (sendMessages value before after (snd with_offset))) ->
        Z.of_nat k <= Number l < Z.of_nat N).
Proof.
  cbv zeta.
  pose proof (received_from value k before after) as Hk. cbv zeta in Hk.
  pose proof (received_from value 0 before after) as H0. cbv zeta in H0.
  rewrite Nat.sub_0_r in H0. rewrite Hk.
  split; [exact H0|]. split; [reflexivity|]. split.
  - rewrite map_map.
    apply Injective_map_NoDup; [|apply seq_NoDup].
    intros a b. cbn. apply Nat2Z.inj.
  - intros l Hl. apply in_map_iff in Hl. destruct Hl as (i & <- & Hi).
    apply in_seq in Hi. cbn. lia.
Qed.

(** The run of [TestGetItemLogsStreamHandler]: ten messages, a connection
    without offset, ten more messages, then a connection with offset 15. *)
Example stream_test :
  let h1 := sendMessages test_value 0 10 emptyHub in
  let c1 := subscribe None h1 in
  let h2 := sendMessages test_value 10 10 (snd c1) in
  let c2 := subscribe (Some 15) h2 in
  List.length (received (fst c1) (snd c1)) = 10%nat
  /\ map Number (received (fst c1) h2)
     = [0; 1; 2; 3; 4; 5; 6; 7; 8; 9; 10; 11; 12; 13; 14; 15; 16; 17; 18; 19]
  /\ nth_error (received (fst c1) h2) 19
     = Some (mkLine 19 ("[EMERGENCY] message 19" ++ newline)%string)
  /\ map Number (received (fst c2) (snd c2)) = [15; 16; 17; 18; 19]
  /\ nth_error (received (fst c2) (snd c2)) 0
     = Some (mkLine 15 ("[EMERGENCY] message 15" ++ newline)%string).
Proof. vm_compute. repeat split. Qed.

(** The second connection of the test: offset 15 once 20 lines are
    ingested. *)
Lemma subscriber_receives_lines_from_offset_witness :
  let c := subscribe (Some 15) (sendMessages test_value 0 20 emptyHub) in
  received (fst c) (sendMessages test_value 20 0 (snd c))
  = map (message test_value) (seq 15 5)
  /\ 15 <= Number (message test_value 17) < 20.
Proof.
  intros c.
  destruct (subscriber_receives_lines_from_offset test_value 15 20 0)
    as (_ & E & _ & B).
  split; [exact E|].
  apply (B (message test_value 17)). fold c. rewrite E.
  cbn. right. right. now left.
Defined.

End StreamFacts.

(* ================================================================== *)
(** ** Further properties of the collector over any store *)
(* ================================================================== *)

(** *** The legacy unit *)

Lemma findCDSBackendID_first (pre post : list StorageUnit) (sto : StorageUnit) :
  forallb (fun x => negb (is_cds x)) pre = true ->
  is_cds sto = true ->
  findCDSBackendID (pre ++ sto :: post) = sto_ID sto.
Proof.
  intros Hpre Hsto. induction pre as [|x pre IH]; cbn.
  - unfold is_cds in Hsto. now destruct (sto_driver sto).
  - cbn in Hpre. apply andb_true_iff in Hpre. destruct Hpre as [Hx Hpre].
    unfold is_cds in Hx. destruct (sto_driver x); [discriminate|].
    apply IH. exact Hpre.
Qed.

Lemma findCDSBackendID_none (stos : list StorageUnit) :
  forallb (fun x => negb (is_cds x)) stos = true ->
  findCDSBackendID stos = EmptyString.
Proof.
  induction stos as [|x stos IH]; cbn; [reflexivity|].
  intros H. apply andb_true_iff in H. destruct H as [Hx H].
  unfold is_cds in Hx. destruct (sto_driver x); [discriminate|]. now apply IH.
Qed.

Section MoreCollectorFacts.

Context {D Tx : Type} `{St : Store D Tx}.

(** X1: only the first CDS storage counts.  Its ID is the legacy unit,
    whatever storages come after it; when its ID is empty the eviction
    makes no call to the store, even with a second CDS storage whose ID is
    not empty; and with no CDS storage at all the result is the empty
    string. *)
Theorem first_cds_storage_decides (buf : UnitID)
    (pre post : list StorageUnit) (sto : StorageUnit) (w : World D) :
  forallb (fun x => negb (is_cds x)) pre = true ->
  is_cds sto = true ->
  findCDSBackendID (pre ++ sto :: post) = sto_ID sto
  /\ findCDSBackendID pre = EmptyString
  /\ (sto_ID sto = EmptyString ->
      cleanBuffer (mkService (mkUnits buf (pre ++ sto :: post))) w
      = (Ok tt, record (Enter OpCleanBuffer) w))
  /\ (sto_ID sto <> EmptyString ->
      exists rest,
        calls (snd (cleanBuffer
                      (mkService (mkUnits buf (pre ++ sto :: post))) w))
        = calls w ++ Enter OpCleanBuffer
                  :: CallLoadReplicated OnDB (sto_ID sto) :: rest).
Proof.
  intros Hpre Hsto.
  pose proof (findCDSBackendID_first pre post sto Hpre Hsto) as F.
  split; [exact F|]. split; [now apply findCDSBackendID_none|]. split.
  - intros E. unfold cleanBuffer. cbn [Units Storages]. rewrite F, E.
    reflexivity.
  - intros N. apply String.eqb_neq in N.
    unfold cleanBuffer. cbn [Units Storages Buffer]. rewrite F, N.
    unfold_gc. cbn [store logs calls metricsItemCompletedByGC fst snd].
    repeat split_call; rewrite <- ?app_assoc; cbn [app];
      eexists; reflexivity.
Qed.

(** *** The calls of the sweep *)

Lemma sweep_shape_cons (ids : list ItemID) (rest : list Call) :
  ids <> [] -> sweep_shape rest = true ->
  sweep_shape (CallLoadItemIDsToDelete OnDB 100
               :: CallDeleteItemByIDs OnDB ids :: rest) = true.
Proof.
  intros Hne H. destruct ids as [|i ids]; [contradiction|].
  cbn. destruct rest; [discriminate H | exact H].
Qed.

Lemma sweep_loop_calls (fuel : nat) (w : World D) r w' :
  cleanItemToDelete_loop fuel w = Some (r, w') ->
  exists new,
    calls w' = calls w ++ new
    /\ sweep_shape new = true
    /\ Forall (fun c =>
                c = CallLoadItemIDsToDelete OnDB 100
                \/ exists ids,
                     c = CallDeleteItemByIDs OnDB ids /\ ids <> []
                     /\ exists d d1,
                          LoadItemIDsToDelete ExecDB 100 d = (Ok ids, d1))
              new
    /\ (r = Ok tt ->
        exists cs, new = cs ++ [CallLoadItemIDsToDelete OnDB 100])
    /\ logs w' = logs w
    /\ metricsItemCompletedByGC w' = metricsItemCompletedByGC w.
Proof.
  revert w. induction fuel as [|fuel IH]; intros w; [discriminate|].
  cbn [cleanItemToDelete_loop]. unfold call.
  destruct (LoadItemIDsToDelete ExecDB 100 (store w)) as [[ids|e] d1] eqn:L.
  - destruct ids as [|i ids]; cbn [List.length Nat.eqb].
    + intros [= <- <-]. exists [CallLoadItemIDsToDelete OnDB 100]. cbn.
      repeat split; auto. intros _. exists []. reflexivity.
    + cbn [store logs calls metricsItemCompletedByGC].
      assert (Del : exists ids0,
                 CallDeleteItemByIDs OnDB (i :: ids)
                 = CallDeleteItemByIDs OnDB ids0 /\ ids0 <> []
                 /\ exists d d0,
                      LoadItemIDsToDelete ExecDB 100 d = (Ok ids0, d0)).
      { exists (i :: ids). split; [reflexivity|]. split; [discriminate|].
        exists (store w), d1. exact L. }
      destruct (DeleteItemByIDs ExecDB (i :: ids) d1) as [[u|e] d2].
      * intros H. apply IH in H. cbn [calls logs metricsItemCompletedByGC] in H.
        destruct H as (new & Ca & Sh & Fa & En & Lg & Me).
        exists (CallLoadItemIDsToDelete OnDB 100
                :: CallDeleteItemByIDs OnDB (i :: ids) :: new).
        split; [rewrite Ca, <- !app_assoc; reflexivity|].
        split; [apply sweep_shape_cons; [discriminate | exact Sh]|].
        split; [auto|]. split; [|split; assumption].
        intros Hr. destruct (En Hr) as (cs & ->).
        exists (CallLoadItemIDsToDelete OnDB 100
                :: CallDeleteItemByIDs OnDB (i :: ids) :: cs).
        reflexivity.
      * intros [= <- <-]. cbn [calls logs metricsItemCompletedByGC].
        exists [CallLoadItemIDsToDelete OnDB 100;
                CallDeleteItemByIDs OnDB (i :: ids)].
        split; [rewrite <- !app_assoc; reflexivity|].
        split; [reflexivity|]. split; [auto|].
        split; [discriminate | auto].
  - intros [= <- <-]. exists [CallLoadItemIDsToDelete OnDB 100]. cbn.
    repeat split; auto. discriminate.
Qed.

(** X2: whenever the sweep returns, over any store: its calls are a load of
    100 ids, then a deletion and the next load for as long as it went on,
    all on the database handle and none in a transaction; every deletion
    is given a list of ids that is not empty and that a load returned; a
    sweep that returns nil ended on a load; the sweep writes nothing to
    the log and does not touch the metric. *)
Theorem sweep_deletes_what_it_loaded (fuel : nat) (s : Service)
    (w : World D) r w' :
  cleanItemToDelete fuel s w = Some (r, w') ->
  exists new,
    calls w' = calls w ++ Enter OpCleanItemToDelete :: new
    /\ sweep_shape new = true
    /\ (forall h ids,
          In (CallDeleteItemByIDs h ids) new ->
          h = OnDB /\ ids <> []
          /\ exists d d1, LoadItemIDsToDelete ExecDB 100 d = (Ok ids, d1))
    /\ (forall c, In c new ->
          c <> CallBegin /\ c <> CallCommit /\ c <> CallRollback)
    /\ (r = Ok tt ->
        exists cs, new = cs ++ [CallLoadItemIDsToDelete OnDB 100])
    /\ logs w' = logs w
    /\ metricsItemCompletedByGC w' = metricsItemCompletedByGC w.
Proof.
  unfold cleanItemToDelete. intros H. apply sweep_loop_calls in H.
  cbn [enter snd calls logs metricsItemCompletedByGC] in H.
  destruct H as (new & Ca & Sh & Fa & En & Lg & Me).
  rewrite Forall_forall in Fa.
  exists new. split; [rewrite Ca, <- app_assoc; reflexivity|].
  split; [exact Sh|]. split; [|split; [|auto]].
  - intros h ids Hin. destruct (Fa _ Hin) as [E|(ids0 & E & Hne & Lo)].
    + discriminate E.
    + injection E as -> ->. auto.
  - intros c Hin. destruct (Fa _ Hin) as [->|(ids0 & -> & _)];
      repeat split; discriminate.
Qed.

Lemma logged_calls (rw : Result unit * World D) :
  calls (logged rw) = calls (snd rw).
Proof. destruct rw as [[u|e] w1]; reflexivity. Qed.

Lemma ctxDone_calls (format : string) (ctxErr : option error) (w : World D) :
  calls (ctxDone format ctxErr w) = calls w.
Proof. destruct ctxErr; reflexivity. Qed.

(** *** The log of a tick *)

Lemma logged_logs (rw : Result unit * World D) :
  logs (logged rw) = logs (snd rw) ++ error_entry (fst rw).
Proof.
  destruct rw as [[u|e] w1]; cbn; [now rewrite app_nil_r | reflexivity].
Qed.

(** X4: what a tick writes to the log, over any store.  The operations do not
    log their errors: the loop logs the error an operation returned, once,
    after it.  [cleanBuffer] and the sweep write nothing; a tick of
    [itemsGC] writes, in this order, the error of the eviction if any, the
    debug line with the number of item-units loaded if the load of the
    completion succeeded, and the error of the completion if any. *)
Theorem log_of_a_tick (s : Service) (w : World D) :
  let rb := cleanBuffer s w in
  let w1 := logged rb in
  let rc := cleanWaitingItem s w1 in
  logs (snd rb) = logs w
  /\ logs (logged rc)
     = logs w ++ error_entry (fst rb)
       ++ match fst (LoadOldItemUnitByItemStatusAndDuration
                       ExecDB StatusItemIncoming ItemLogGC (store w1)) with
          | Ok stale =>
            [LogDebug "cdn:CompleteWaitingItems: %d items to complete"
                      (Z.of_nat (List.length stale))]
          | Err _ => []
          end
       ++ error_entry (fst rc)
  /\ (forall fuel r w',
        cleanItemToDelete fuel s w = Some (r, w') ->
        logs w' = logs w
        /\ logs (logged (r, w')) = logs w ++ error_entry r).
Proof.
  cbv zeta. destruct (cleanBuffer_frame s w) as [_ Lb].
  split; [exact Lb|]. split.
  - rewrite logged_logs. set (w1 := logged (cleanBuffer s w)).
    assert (L1 : logs w1 = logs w ++ error_entry (fst (cleanBuffer s w)))
      by (subst w1; now rewrite logged_logs, Lb).
    rewrite cleanWaitingItem_unfold. cbv zeta.
    destruct (LoadOldItemUnitByItemStatusAndDuration ExecDB StatusItemIncoming
                ItemLogGC (store w1)) as [[stale|e] d]; cbn [fst snd].
    + match goal with
      | |- context [cleanWaitingItem_range stale ?w2] =>
        destruct (cleanWaitingItem_range_frame stale w2) as [_ Lr]
      end.
      rewrite Lr. cbn [logs]. rewrite L1. now rewrite <- !app_assoc.
    + cbn [logs error_entry]. rewrite L1. cbn. now rewrite <- !app_assoc.
  - intros fuel r w' H. apply cleanItemToDelete_frame in H.
    destruct H as [_ L]. split; [exact L|].
    rewrite logged_logs. cbn [fst snd]. now rewrite L.
Qed.

(** *** After cancellation *)

Lemma itemsGC_for_after_done (s : Service) (pre post : list SelectCase)
    (ctxErr : option error) (w : World D) :
  itemsGC_for s (pre ++ CtxDone ctxErr :: post) w
  = itemsGC_for s (pre ++ [CtxDone ctxErr]) w.
Proof.
  revert w. induction pre as [|c pre IH]; intros w; [reflexivity|].
  destruct c; cbn [app itemsGC_for]; [reflexivity | apply IH].
Qed.

Lemma itemPurge_for_after_done (fuel : nat) (s : Service)
    (pre post : list SelectCase) (ctxErr : option error) (w : World D) :
  itemPurge_for fuel s (pre ++ CtxDone ctxErr :: post) w
  = itemPurge_for fuel s (pre ++ [CtxDone ctxErr]) w.
Proof.
  revert w. induction pre as [|c pre IH]; intros w; [reflexivity|].
  destruct c; cbn [app itemPurge_for]; [reflexivity|].
  destruct (cleanItemToDelete fuel s w); [apply IH | reflexivity].
Qed.

Lemma itemsGC_for_ticks_then_done (s : Service) (n : nat)
    (ctxErr : option error) (w : World D) :
  itemsGC_for s (repeat TickC n ++ [CtxDone ctxErr]) w
  = (Returned,
     ctxDone "cdn:CompleteWaitingItems: %v" ctxErr
             (snd (itemsGC_for s (repeat TickC n) w))).
Proof.
  revert w. induction n as [|n IH]; intros w; [reflexivity|].
  cbn [repeat app itemsGC_for]. apply IH.
Qed.

(** X5: once a [select] has taken the [ctx.Done()] case nothing more is run:
    the cases that would follow change nothing in the result; after [n]
    ticks and the cancellation, [itemsGC] has entered eviction and
    completion [n] times each, has logged the context's error last (and
    nothing for a nil error), and its last call stops the ticker. *)
Theorem nothing_runs_after_done (s : Service) (pre post : list SelectCase)
    (n : nat) (ctxErr : option error) (w : World D) :
  itemsGC s (pre ++ CtxDone ctxErr :: post) w
  = itemsGC s (pre ++ [CtxDone ctxErr]) w
  /\ (forall fuel,
        itemPurge fuel s (pre ++ CtxDone ctxErr :: post) w
        = itemPurge fuel s (pre ++ [CtxDone ctxErr]) w)
  /\ fst (itemsGC s (repeat TickC n ++ CtxDone ctxErr :: post) w) = Returned
  /\ entered (calls (snd (itemsGC s (repeat TickC n ++ CtxDone ctxErr :: post) w)))
     = entered (calls w) ++ List.concat (repeat [OpCleanBuffer; OpCleanWaitingItem] n)
  /\ (exists l,
        logs (snd (itemsGC s (repeat TickC n ++ CtxDone ctxErr :: post) w))
        = logs w ++ l
          ++ match ctxErr with
             | Some err => [LogError "cdn:CompleteWaitingItems: %v" err]
             | None => []
             end)
  /\ (exists cs,
        calls (snd (itemsGC s (repeat TickC n ++ CtxDone ctxErr :: post) w))
        = cs ++ [CallTickerStop]).
Proof.
  split; [unfold itemsGC; now rewrite itemsGC_for_after_done|].
  split; [intros fuel; unfold itemPurge; now rewrite itemPurge_for_after_done|].
  unfold itemsGC.
  rewrite itemsGC_for_after_done, itemsGC_for_ticks_then_done.
  cbn [stop_on_return fst snd record calls logs].
  destruct (itemsGC_for_ticks s n (record (CallNewTicker (period tickGC)) w))
    as (En & _ & l & Lg).
  split; [reflexivity|]. split; [|split].
  - rewrite entered_app, ctxDone_calls, En. cbn.
    rewrite entered_app. cbn. now rewrite !app_nil_r.
  - exists l. destruct ctxErr; cbn [ctxDone log logs]; rewrite Lg; cbn [record logs].
    + now rewrite <- app_assoc.
    + now rewrite app_nil_r.
  - eexists. reflexivity.
Qed.

End MoreCollectorFacts.

(** *** Runs on the reference store *)

(** The first CDS storage has an empty ID and a second one has not: the
    eviction makes no call to the store. *)
Lemma first_cds_storage_decides_witness :
  let stos := [mkStorageUnit DriverOther local]
              ++ mkStorageUnit DriverCDS EmptyString
                 :: [mkStorageUnit DriverCDS cdsUnit] in
  let w := world_of (quiet (db_replicated units_legacy) 0) in
  findCDSBackendID stos = EmptyString
  /\ cleanBuffer (mkService (mkUnits redis stos)) w
     = (Ok tt, record (Enter OpCleanBuffer) w).
Proof.
  intros stos w.
  destruct (first_cds_storage_decides (D:=RefStore) redis
              [mkStorageUnit DriverOther local]
              [mkStorageUnit DriverCDS cdsUnit]
              (mkStorageUnit DriverCDS EmptyString) w eq_refl eq_refl)
    as (F & _ & E & _).
  split; [exact F | exact (E eq_refl)].
Defined.

Lemma sweep_deletes_what_it_loaded_witness :
  exists r w' new,
    cleanItemToDelete 2 svc_legacy (world_of (quiet db_flagged 0))
    = Some (r, w')
    /\ calls w' = Enter OpCleanItemToDelete :: new
    /\ sweep_shape new = true.
Proof.
  destruct (cleanItemToDelete 2 svc_legacy (world_of (quiet db_flagged 0)))
    as [[r w']|] eqn:E; [|vm_compute in E; discriminate E].
  destruct (sweep_deletes_what_it_loaded _ _ _ E) as (new & Ca & Sh & _).
  exists r, w', new. split; [reflexivity|]. split; [exact Ca | exact Sh].
Defined.

Lemma log_of_a_tick_witness :
  exists r w',
    cleanItemToDelete 1 svc_legacy (world_of (faulty db_flagged 0 [true]))
    = Some (r, w')
    /\ logs (logged (r, w')) = error_entry r
    /\ r = Err (ErrStore "LoadItemIDsToDelete").
Proof.
  destruct (cleanItemToDelete 1 svc_legacy
              (world_of (faulty db_flagged 0 [true])))
    as [[r w']|] eqn:E; [|vm_compute in E; discriminate E].
  destruct (log_of_a_tick svc_legacy (world_of (faulty db_flagged 0 [true])))
    as (_ & _ & H).
  destruct (H _ _ _ E) as [_ L].
  exists r, w'. split; [reflexivity|]. split; [exact L|].
  vm_compute in E. now injection E as <- _.
Defined.

(* ================================================================== *)
(** ** The transaction protocol *)
(* ================================================================== *)

Ltac split_traced :=
  match goal with
  | |- context [match ?x with pair _ _ => _ end] =>
    lazymatch x with
    | context [match _ with pair _ _ => _ end] => fail
    | _ =>
      let E := fresh "E" in
      destruct x as [[?|?] ?] eqn:E;
      cbn [store logs calls metricsItemCompletedByGC fst snd
           inner outcomes succeeded]
    end
  end.

Ltac on_traced :=
  cbn [LoadItemIDsToDelete DeleteItemByIDs
       LoadAllItemsIDInBufferAndAllUnitsExceptCDS DeleteItemsUnit
       LoadOldItemUnitByItemStatusAndDuration completeItem
       Begin Commit Rollback Traced_Store handle_of];
  unfold traced;
  cbn [store logs calls metricsItemCompletedByGC fst snd
       inner outcomes succeeded].

Ltac protocol_now :=
  rewrite <- ?app_assoc; cbn [app];
  eexists; eexists;
  split; [reflexivity|];
  split; [try reflexivity; symmetry; apply app_nil_r|];
  split; [reflexivity|];
  let ph := fresh "ph" in
  let R := fresh "R" in
  intros ph R; destruct ph; try discriminate R; cbn; eauto.

Section TransactionProtocol.

Context {D Tx : Type} `{St : Store D Tx}.

#[local] Existing Instance Traced_Store.

Lemma phase_run_app (a b : list (Call * bool)) (ph : TxPhase) :
  phase_run ph (a ++ b)
  = match phase_run ph a with
    | Some ph' => phase_run ph' b
    | None => None
    end.
Proof.
  revert ph. induction a as [|ev a IH]; intros ph; cbn [app phase_run];
    [reflexivity|].
  destruct (phase_step ph ev); [apply IH | reflexivity].
Qed.

Lemma keeps_refl (w : World (Traced D)) : keeps_protocol w w.
Proof.
  exists [], []. rewrite !app_nil_r. repeat split.
  intros ph R. exists ph. split; [reflexivity | exact R].
Qed.

Lemma keeps_trans (w1 w2 w3 : World (Traced D)) :
  keeps_protocol w1 w2 -> keeps_protocol w2 w3 -> keeps_protocol w1 w3.
Proof.
  intros (c1 & n1 & C1 & O1 & M1 & P1) (c2 & n2 & C2 & O2 & M2 & P2).
  exists (c1 ++ c2), (n1 ++ n2).
  split; [now rewrite C2, C1, app_assoc|].
  split; [now rewrite O2, O1, app_assoc|].
  split; [now rewrite map_app, filter_app, M1, M2|].
  intros ph R. destruct (P1 ph R) as (ph1 & E1 & R1).
  destruct (P2 ph1 R1) as (ph2 & E2 & R2).
  exists ph2. split; [|exact R2]. now rewrite phase_run_app, E1.
Qed.

Lemma keeps_record (c : Call) (w : World (Traced D)) :
  store_call c = false -> keeps_protocol w (record c w).
Proof.
  intros Hc. exists [c], []. cbn [record calls store filter map].
  rewrite Hc, app_nil_r. repeat split.
  intros ph R. exists ph. split; [reflexivity | exact R].
Qed.

Lemma keeps_logged (w : World (Traced D))
    (rw : Result unit * World (Traced D)) :
  keeps_protocol w (snd rw) -> keeps_protocol w (logged rw).
Proof. destruct rw as [[u|e] w1]; cbn; auto. Qed.

Lemma keeps_ctxDone (format : string) (ctxErr : option error)
    (w : World (Traced D)) :
  keeps_protocol w (ctxDone format ctxErr w).
Proof.
  destruct ctxErr as [e|]; cbn; [|apply keeps_refl].
  exists [], []. cbn. rewrite !app_nil_r. repeat split.
  intros ph R. exists ph. split; [reflexivity | exact R].
Qed.

Lemma cleanBuffer_keeps (s : Service) (w : World (Traced D)) :
  keeps_protocol w (snd (cleanBuffer s w)).
Proof.
  unfold keeps_protocol, cleanBuffer.
  destruct (String.eqb (findCDSBackendID (Storages (Units s))) EmptyString).
  - unfold_gc. cbn [store logs calls metricsItemCompletedByGC fst snd].
    protocol_now.
  - unfold_gc. on_traced.
    repeat (split_traced; on_traced); protocol_now.
Qed.

Lemma cleanWaitingItem_range_keeps (ius : list ItemUnit)
    (w : World (Traced D)) :
  keeps_protocol w (snd (cleanWaitingItem_range ius w)).
Proof.
  revert w. induction ius as [|iu rest IH]; intros w.
  - apply keeps_refl.
  - cbn [cleanWaitingItem_range]. unfold_gc. on_traced.
    repeat (split_traced; on_traced);
      try (unfold keeps_protocol;
           cbn [store logs calls metricsItemCompletedByGC fst snd
                inner outcomes];
           protocol_now).
    match goal with
    | |- context [cleanWaitingItem_range rest ?w1] =>
      apply (@keeps_trans w w1); [|apply IH]
    end.
    unfold keeps_protocol.
    cbn [store logs calls metricsItemCompletedByGC fst snd inner outcomes].
    protocol_now.
Qed.

Lemma cleanWaitingItem_keeps (s : Service) (w : World (Traced D)) :
  keeps_protocol w (snd (cleanWaitingItem s w)).
Proof.
  unfold cleanWaitingItem. unfold bind at 1. unfold enter at 1.
  unfold bind at 1. unfold call at 1. on_traced.
  split_traced.
  - unfold bind, logM, log.
    cbn [store logs calls metricsItemCompletedByGC fst snd].
    match goal with
    | |- context [cleanWaitingItem_range ?l ?w1] =>
      apply (@keeps_trans w w1); [|apply cleanWaitingItem_range_keeps]
    end.
    unfold keeps_protocol.
    cbn [store logs calls metricsItemCompletedByGC fst snd inner outcomes].
    protocol_now.
  - unfold keeps_protocol.
    cbn [store logs calls metricsItemCompletedByGC fst snd inner outcomes].
    protocol_now.
Qed.

Lemma itemsGC_for_keeps (s : Service) (sel : list SelectCase)
    (w : World (Traced D)) :
  keeps_protocol w (snd (itemsGC_for s sel w)).
Proof.
  revert w. induction sel as [|c sel IH]; intros w.
  - apply keeps_refl.
  - destruct c as [ctxErr|]; cbn [itemsGC_for snd].
    + apply keeps_ctxDone.
    + eapply keeps_trans; [|apply IH].
      eapply keeps_trans.
      * apply keeps_logged, cleanBuffer_keeps.
      * apply keeps_logged, cleanWaitingItem_keeps.
Qed.

Lemma itemsGC_keeps (s : Service) (sel : list SelectCase)
    (w : World (Traced D)) :
  keeps_protocol w (snd (itemsGC s sel w)).
Proof.
  unfold itemsGC.
  eapply keeps_trans; [apply (@keeps_record (CallNewTicker (period tickGC)));
                       reflexivity|].
  pose proof (itemsGC_for_keeps s sel
                (record (CallNewTicker (period tickGC)) w)) as H.
  destruct (itemsGC_for s sel _) as [[] w1]; cbn [stop_on_return snd] in *.
  - eapply keeps_trans; [exact H|]. now apply keeps_record.
  - exact H.
Qed.

(** *** The traced run is the run on the wrapped store *)

Lemma logged_untraced (r : Result unit) (w : World (Traced D)) :
  logged (r, untraced w) = untraced (logged (r, w)).
Proof. destruct r; reflexivity. Qed.

Lemma ctxDone_untraced (format : string) (ctxErr : option error)
    (w : World (Traced D)) :
  ctxDone format ctxErr (untraced w) = untraced (ctxDone format ctxErr w).
Proof. destruct ctxErr; reflexivity. Qed.

Lemma cleanBuffer_untraced (s : Service) (w : World (Traced D)) :
  cleanBuffer s (untraced w)
  = (fst (cleanBuffer s w), untraced (snd (cleanBuffer s w))).
Proof.
  unfold cleanBuffer.
  destruct (String.eqb (findCDSBackendID (Storages (Units s))) EmptyString).
  - reflexivity.
  - unfold_gc. unfold untraced. on_traced.
    repeat (split_traced; on_traced); reflexivity.
Qed.

Lemma cleanWaitingItem_range_untraced (ius : list ItemUnit)
    (w : World (Traced D)) :
  cleanWaitingItem_range ius (untraced w)
  = (fst (cleanWaitingItem_range ius w),
     untraced (snd (cleanWaitingItem_range ius w))).
Proof.
  revert w. induction ius as [|iu rest IH]; intros w; [reflexivity|].
  cbn [cleanWaitingItem_range]. unfold_gc. unfold untraced at 1. on_traced.
  repeat (split_traced; on_traced); try reflexivity.
  match goal with
  | |- _ = (fst (cleanWaitingItem_range rest ?w1), _) =>
    rewrite <- (IH w1); reflexivity
  end.
Qed.

Lemma cleanWaitingItem_untraced (s : Service) (w : World (Traced D)) :
  cleanWaitingItem s (untraced w)
  = (fst (cleanWaitingItem s w), untraced (snd (cleanWaitingItem s w))).
Proof.
  unfold cleanWaitingItem. unfold bind, enter, call, logM, log.
  unfold untraced at 1. on_traced.
  split_traced; [|reflexivity].
  match goal with
  | |- _ = (fst (cleanWaitingItem_range ?l ?w1), _) =>
    rewrite <- (cleanWaitingItem_range_untraced l w1); reflexivity
  end.
Qed.

Lemma itemsGC_for_untraced (s : Service) (sel : list SelectCase)
    (w : World (Traced D)) :
  itemsGC_for s sel (untraced w)
  = (fst (itemsGC_for s sel w), untraced (snd (itemsGC_for s sel w))).
Proof.
  revert w. induction sel as [|c sel IH]; intros w; [reflexivity|].
  destruct c as [ctxErr|]; cbn [itemsGC_for fst snd].
  - now rewrite ctxDone_untraced.
  - rewrite cleanBuffer_untraced, logged_untraced.
    rewrite <- surjective_pairing.
    rewrite cleanWaitingItem_untraced, logged_untraced.
    rewrite <- surjective_pairing. apply IH.
Qed.

Lemma itemsGC_untraced (s : Service) (sel : list SelectCase)
    (w : World (Traced D)) :
  itemsGC s sel (untraced w)
  = (fst (itemsGC s sel w), untraced (snd (itemsGC s sel w))).
Proof.
  unfold itemsGC.
  change (record (CallNewTicker (period tickGC)) (untraced w))
    with (untraced (record (CallNewTicker (period tickGC)) w)).
  rewrite itemsGC_for_untraced.
  destruct (itemsGC_for s sel _) as [[] w1]; reflexivity.
Qed.

(** *** [itemPurge] has no transaction *)

Lemma sweep_outcomes (fuel : nat) (w : World (Traced D)) r w' :
  cleanItemToDelete_loop fuel w = Some (r, w') ->
  exists new,
    outcomes (store w') = outcomes (store w) ++ new
    /\ Forall (fun ev => on_db (fst ev) = true) new.
Proof.
  revert w. induction fuel as [|fuel IH]; intros w; [discriminate|].
  cbn [cleanItemToDelete_loop]. unfold call. on_traced.
  split_traced.
  - destruct (List.length _ =? 0)%nat.
    + intros [= <- <-]. eexists. cbn [store outcomes].
      split; [reflexivity|]. repeat constructor.
    + on_traced. split_traced.
      * intros H. apply IH in H. cbn [store outcomes] in H.
        destruct H as (new & O & Fa). rewrite <- !app_assoc in O.
        eexists. split; [exact O|]. repeat constructor. exact Fa.
      * intros [= <- <-]. cbn [store outcomes]. rewrite <- app_assoc.
        eexists. split; [reflexivity|]. repeat constructor.
  - intros [= <- <-]. eexists. cbn [store outcomes].
    split; [reflexivity|]. repeat constructor.
Qed.

Lemma itemPurge_for_outcomes (fuel : nat) (s : Service)
    (sel : list SelectCase) (w : World (Traced D)) st w' :
  itemPurge_for fuel s sel w = Some (st, w') ->
  exists new,
    outcomes (store w') = outcomes (store w) ++ new
    /\ Forall (fun ev => on_db (fst ev) = true) new.
Proof.
  revert w. induction sel as [|c sel IH]; intros w; cbn [itemPurge_for].
  - intros [= _ <-]. exists []. rewrite app_nil_r. auto.
  - destruct c as [ctxErr|].
    + intros [= _ <-]. exists []. rewrite app_nil_r.
      split; [now destruct ctxErr | auto].
    + unfold cleanItemToDelete.
      destruct (cleanItemToDelete_loop fuel _) as [[r w1]|] eqn:E;
        [|discriminate].
      intros H. apply IH in H. destruct H as (n2 & O2 & F2).
      apply sweep_outcomes in E. cbn [enter snd store] in E.
      destruct E as (n1 & O1 & F1).
      exists (n1 ++ n2). split.
      * rewrite O2. destruct r; cbn [logged log store];
          now rewrite O1, app_assoc.
      * apply Forall_app. auto.
Qed.

Lemma itemPurge_for_calls (fuel : nat) (s : Service) (sel : list SelectCase)
    (w : World D) st w' :
  itemPurge_for fuel s sel w = Some (st, w') ->
  exists new, calls w' = calls w ++ new /\ forallb purge_call new = true.
Proof.
  revert w. induction sel as [|c sel IH]; intros w; cbn [itemPurge_for].
  - intros [= _ <-]. exists []. now rewrite app_nil_r.
  - destruct c as [ctxErr|].
    + intros [= _ <-]. exists []. rewrite ctxDone_calls, app_nil_r. auto.
    + unfold cleanItemToDelete.
      destruct (cleanItemToDelete_loop fuel _) as [[r w1]|] eqn:E;
        [|discriminate].
      intros H. apply IH in H. destruct H as (n2 & C2 & F2).
      apply sweep_loop_calls in E. cbn [enter snd calls] in E.
      destruct E as (n1 & C1 & _ & Fa & _).
      exists (Enter OpCleanItemToDelete :: n1 ++ n2). split.
      * rewrite C2, logged_calls. cbn [snd].
        rewrite C1, <- !app_assoc. reflexivity.
      * cbn [forallb purge_call andb]. rewrite forallb_app, F2, andb_true_r.
        apply forallb_forall. rewrite Forall_forall in Fa.
        intros c Hc. destruct (Fa c Hc) as [->|(ids & -> & _)]; reflexivity.
Qed.


End TransactionProtocol.


(* ================================================================== *)
(** ** The diff item component *)
(* ================================================================== *)

Module DiffItemFacts.
Import DiffItem.

(** *** Texts *)

Lemma append_nil_r (a : string) : (a ++ "")%string = a.
Proof. induction a as [|x a IH]; cbn; [reflexivity | now rewrite IH]. Qed.

Lemma append_assoc (a b c : string) :
  ((a ++ b) ++ c)%string = (a ++ b ++ c)%string.
Proof. induction a as [|x a IH]; cbn; [reflexivity | now rewrite IH]. Qed.

Lemma newlines_app (a b : string) :
  newlines (a ++ b) = (newlines a + newlines b)%nat.
Proof.
  induction a as [|x a IH]; cbn; [reflexivity|]. rewrite IH. lia.
Qed.

Lemma newlines_repeat_nl (n : nat) : newlines (repeat_str nl n) = n.
Proof. induction n as [|n IH]; cbn; [reflexivity|]. now rewrite IH. Qed.

Lemma fold_text (f : Part -> string) (parts : list Part) (acc : string) :
  fold_left (fun v part => (v ++ f part)%string) parts acc
  = (acc ++ reduce_text f parts)%string.
Proof.
  unfold reduce_text. revert acc.
  induction parts as [|p parts IH]; intros acc; cbn.
  - now rewrite append_nil_r.
  - rewrite IH, (IH (f p)). now rewrite append_assoc.
Qed.

Lemma reduce_text_split (f : Part -> string) (pre post : list Part) (p : Part) :
  reduce_text f (pre ++ p :: post)
  = (reduce_text f pre ++ f p ++ reduce_text f post)%string.
Proof.
  unfold reduce_text at 1. rewrite fold_left_app. cbn [fold_left].
  rewrite fold_text. fold (reduce_text f pre).
  now rewrite append_assoc.
Qed.

Lemma newlines_reduce (f : Part -> string) (parts : list Part) :
  Forall (fun q => newlines (f q) = count q) parts ->
  newlines (reduce_text f parts) = total parts.
Proof.
  induction 1 as [|q parts Hq _ IH]; [reflexivity|].
  change (q :: parts) with ([] ++ q :: parts).
  rewrite reduce_text_split. cbn [total fold_right app].
  rewrite !newlines_app, Hq. cbn. fold (total parts). now rewrite IH.
Qed.

Lemma lines_of_texts (parts : list Part) :
  Forall (fun q => newlines (value q) = count q) parts ->
  Forall (fun q => newlines (unifiedText q) = count q) parts
  /\ Forall (fun q => newlines (splitLeftText q) = count q) parts
  /\ Forall (fun q => newlines (splitRightText q) = count q) parts.
Proof.
  intros H. repeat split; eapply Forall_impl; try exact H;
    intros q Hq; unfold unifiedText, splitLeftText, splitRightText;
    try exact Hq.
  - destruct (added q); [apply newlines_repeat_nl | exact Hq].
  - destruct (removed q); [apply newlines_repeat_nl | exact Hq].
Qed.

Section RefreshFacts.

Variable diffLines : string -> option string -> option (list Part).
Variable jsonPretty : string -> option string.

Lemma refresh_inputs (c : Component) :
  codeLeft (refresh diffLines jsonPretty c) = codeLeft c
  /\ codeRight (refresh diffLines jsonPretty c) = codeRight c
  /\ original (refresh diffLines jsonPretty c) = original c
  /\ updated (refresh diffLines jsonPretty c) = updated c
  /\ mode (refresh diffLines jsonPretty c) = mode c
  /\ type (refresh diffLines jsonPretty c) = type c
  /\ codeMirrorConfig (refresh diffLines jsonPretty c) = codeMirrorConfig c.
Proof.
  unfold refresh.
  destruct (diffLines _ _); [|repeat split].
  destruct (String.eqb (mode c) UNIFIED); repeat split.
Qed.

Lemma refreshTexts_inputs (c c' : Component) :
  original c' = original c -> updated c' = updated c -> type c' = type c ->
  refreshTexts jsonPretty c' = refreshTexts jsonPretty c.
Proof.
  intros O U T. unfold refreshTexts, originalText. now rewrite O, U, T.
Qed.

Lemma refresh_some (c : Component) (parts : list Part) :
  diffLines (fst (refreshTexts jsonPretty c)) (snd (refreshTexts jsonPretty c))
  = Some parts ->
  refresh diffLines jsonPretty c
  = if String.eqb (mode c) UNIFIED
    then mkComponent (codeLeft c) (codeRight c) (original c) (updated c)
                     (mode c) (type c) (Some parts)
                     (Some (reduce_text unifiedText parts))
                     (contentRight c) (codeMirrorConfig c)
    else mkComponent (codeLeft c) (codeRight c) (original c) (updated c)
                     (mode c) (type c) (Some parts)
                     (Some (reduce_text splitLeftText parts))
                     (Some (reduce_text splitRightText parts))
                     (codeMirrorConfig c).
Proof. intros E. unfold refresh. now rewrite E. Qed.

Lemma refresh_none (c : Component) :
  diffLines (fst (refreshTexts jsonPretty c)) (snd (refreshTexts jsonPretty c))
  = None ->
  refresh diffLines jsonPretty c = c.
Proof. intros E. unfold refresh. now rewrite E. Qed.

Lemma refresh_twice (c : Component) :
  refresh diffLines jsonPretty (refresh diffLines jsonPretty c)
  = refresh diffLines jsonPretty c.
Proof.
  destruct (diffLines (fst (refreshTexts jsonPretty c))
                      (snd (refreshTexts jsonPretty c))) as [parts|] eqn:E.
  - rewrite (refresh_some c E).
    destruct (String.eqb (mode c) UNIFIED) eqn:Mu.
    + rewrite (@refresh_some _ parts);
        [cbn; rewrite Mu; reflexivity|].
      rewrite (refreshTexts_inputs c) by reflexivity. exact E.
    + rewrite (@refresh_some _ parts);
        [cbn; rewrite Mu; reflexivity|].
      rewrite (refreshTexts_inputs c) by reflexivity. exact E.
  - now rewrite !(refresh_none c E).
Qed.

Lemma refresh_followType (c : Component) :
  refresh diffLines jsonPretty (followType c)
  = followType (refresh diffLines jsonPretty c).
Proof.
  destruct (diffLines (fst (refreshTexts jsonPretty c))
                      (snd (refreshTexts jsonPretty c))) as [parts|] eqn:E.
  - rewrite (refresh_some c E), (@refresh_some (followType c) parts).
    + cbn. destruct (String.eqb (mode c) UNIFIED); reflexivity.
    + rewrite (refreshTexts_inputs c) by reflexivity. exact E.
  - rewrite (refresh_none c E). apply refresh_none.
    rewrite (refreshTexts_inputs c) by reflexivity. exact E.
Qed.

Lemma followType_twice (c : Component) :
  followType (followType c) = followType c.
Proof. reflexivity. Qed.

(** X6: [refresh] and [ngOnChanges] read the inputs and write the diff and
    the two contents (and the editor mode) only: they leave the inputs,
    the mode, the type and the editors as they were, so running either a
    second time changes nothing. *)
Theorem refresh_is_idempotent (c : Component) :
  refresh diffLines jsonPretty (refresh diffLines jsonPretty c)
  = refresh diffLines jsonPretty c
  /\ ngOnChanges diffLines jsonPretty (ngOnChanges diffLines jsonPretty c)
     = ngOnChanges diffLines jsonPretty c
  /\ (codeLeft (ngOnChanges diffLines jsonPretty c) = codeLeft c
      /\ codeRight (ngOnChanges diffLines jsonPretty c) = codeRight c
      /\ original (ngOnChanges diffLines jsonPretty c) = original c
      /\ updated (ngOnChanges diffLines jsonPretty c) = updated c
      /\ mode (ngOnChanges diffLines jsonPretty c) = mode c
      /\ type (ngOnChanges diffLines jsonPretty c) = type c
      /\ cm_mode (codeMirrorConfig (ngOnChanges diffLines jsonPretty c))
         = type c).
Proof.
  destruct (refresh_inputs c) as (L & R & O & U & M & T & Cf).
  split; [apply refresh_twice|]. split.
  - unfold ngOnChanges.
    destruct (truthy (original c) && truthy (updated c)) eqn:G.
    + cbn [followType original updated]. rewrite O, U, G.
      now rewrite refresh_followType, refresh_twice.
    + cbn [followType original updated]. rewrite G. reflexivity.
  - unfold ngOnChanges.
    destruct (truthy (original c) && truthy (updated c)); cbn; auto 10.
Qed.

(** X7: where [refresh] finds a diff: the text of every part starts, in each
    content it is written to, at the line that is the number of lines of
    the parts before it, provided each part before it has as many line
    breaks in its [value] as its [count] says (a padding has by
    construction).  In unified mode the right content is left as it was;
    in any other mode, when all parts are so, the two contents have the
    same number of lines. *)
Theorem part_text_starts_at_its_line (c : Component)
    (pre post : list Part) (p : Part) :
  diffLines (fst (refreshTexts jsonPretty c)) (snd (refreshTexts jsonPretty c))
  = Some (pre ++ p :: post) ->
  Forall (fun q => newlines (value q) = count q) pre ->
  diff (refresh diffLines jsonPretty c) = Some (pre ++ p :: post)
  /\ (String.eqb (mode c) UNIFIED = true ->
      contentRight (refresh diffLines jsonPretty c) = contentRight c
      /\ exists before after,
           contentLeft (refresh diffLines jsonPretty c)
           = Some (before ++ value p ++ after)%string
           /\ newlines before = total pre)
  /\ (String.eqb (mode c) UNIFIED = false ->
      (exists before after,
          contentLeft (refresh diffLines jsonPretty c)
          = Some (before ++ splitLeftText p ++ after)%string
          /\ newlines before = total pre)
      /\ (exists before after,
            contentRight (refresh diffLines jsonPretty c)
            = Some (before ++ splitRightText p ++ after)%string
            /\ newlines before = total pre)
      /\ (Forall (fun q => newlines (value q) = count q) (p :: post) ->
          exists l r,
            contentLeft (refresh diffLines jsonPretty c) = Some l
            /\ contentRight (refresh diffLines jsonPretty c) = Some r
            /\ newlines l = total (pre ++ p :: post)
            /\ newlines r = total (pre ++ p :: post))).
Proof.
  intros E Hpre. rewrite (refresh_some c E).
  destruct (lines_of_texts Hpre) as (Hu & Hl & Hr).
  destruct (String.eqb (mode c) UNIFIED); cbn [diff contentLeft contentRight].
  - split; [reflexivity|]. split; [|discriminate].
    intros _. split; [reflexivity|].
    exists (reduce_text unifiedText pre), (reduce_text unifiedText post).
    split; [now rewrite reduce_text_split | now apply newlines_reduce].
  - split; [reflexivity|]. split; [discriminate|].
    intros _. split; [|split].
    + exists (reduce_text splitLeftText pre), (reduce_text splitLeftText post).
      split; [now rewrite reduce_text_split | now apply newlines_reduce].
    + exists (reduce_text splitRightText pre),
             (reduce_text splitRightText post).
      split; [now rewrite reduce_text_split | now apply newlines_reduce].
    + intros Hrest.
      assert (Hall : Forall (fun q => newlines (value q) = count q)
                            (pre ++ p :: post))
        by (apply Forall_app; split; assumption).
      destruct (lines_of_texts Hall) as (_ & Hl' & Hr').
      do 2 eexists. split; [reflexivity|]. split; [reflexivity|].
      split; now apply newlines_reduce.
Qed.

End RefreshFacts.

(** *** Line classes *)

Lemma forEachLeft_marks (mode0 : string) (parts : list Part) (index : nat)
    (doc : list LineClass) :
  forEachLeft mode0 parts index doc
  = doc ++ marks (leftSelected mode0) leftClass parts index.
Proof.
  revert index doc. induction parts as [|p parts IH]; intros index doc; cbn.
  - now rewrite app_nil_r.
  - rewrite IH. unfold addLineClasses.
    destruct (leftSelected mode0 p); cbn; [now rewrite <- app_assoc|].
    reflexivity.
Qed.

Lemma forEachRight_marks (parts : list Part) (index : nat)
    (doc : list LineClass) :
  forEachRight parts index doc
  = doc ++ marks added (fun _ => "codeAdded"%string) parts index.
Proof.
  revert index doc. induction parts as [|p parts IH]; intros index doc; cbn.
  - now rewrite app_nil_r.
  - rewrite IH. unfold addLineClasses.
    destruct (added p); cbn; [now rewrite <- app_assoc|]. reflexivity.
Qed.

Section Marks.

Variable sel : Part -> bool.
Variable cls : Part -> string.

Lemma marks_app (pre post : list Part) (index : nat) :
  marks sel cls (pre ++ post) index
  = marks sel cls pre index ++ marks sel cls post (index + total pre).
Proof.
  revert index. induction pre as [|q pre IH]; intros index; cbn.
  - now rewrite Nat.add_0_r.
  - rewrite IH, <- app_assoc. do 3 f_equal. fold (total pre). lia.
Qed.

Lemma marks_in (parts : list Part) (index : nat) (lc : LineClass) :
  In lc (marks sel cls parts index) ->
  (index <= lc_line lc < index + total parts)%nat
  /\ lc_where lc = "background"%string
  /\ exists p,
       part_at parts index (lc_line lc) = Some p
       /\ In p parts /\ sel p = true /\ lc_class lc = cls p.
Proof.
  revert index lc. induction parts as [|q parts IH]; intros index lc;
    cbn [marks part_at total fold_right]; [intros []|].
  fold (total parts). intros H. apply in_app_or in H. destruct H as [H|H].
  - destruct (sel q) eqn:S; [|destruct H].
    apply in_map_iff in H. destruct H as (i & <- & Hi). apply in_seq in Hi.
    cbn [lc_line lc_where lc_class]. split; [lia|]. split; [reflexivity|].
    destruct (Nat.ltb_spec i (index + count q)); [|lia].
    destruct (Nat.leb_spec index i); [|lia].
    exists q. repeat split; auto. now left.
  - apply IH in H. destruct H as (B & W & p & Pa & Hin & Sp & Cl).
    split; [lia|]. split; [exact W|].
    destruct (Nat.ltb_spec (lc_line lc) (index + count q)); [lia|].
    exists p. repeat split; auto. now right.
Qed.

Lemma block_sorted (c0 : string) (n index : nat) (tail : list LineClass) :
  StronglySorted (fun a b => (lc_line a < lc_line b)%nat) tail ->
  (forall lc, In lc tail -> (index + n <= lc_line lc)%nat) ->
  StronglySorted (fun a b => (lc_line a < lc_line b)%nat)
                 (map (fun i => mkLineClass i "background" c0) (seq index n)
                  ++ tail).
Proof.
  revert index. induction n as [|n IHn]; intros index Hs Hb; cbn; [exact Hs|].
  constructor.
  - apply IHn; [exact Hs|]. intros lc H. apply Hb in H. lia.
  - apply Forall_forall. intros lc H. apply in_app_or in H.
    destruct H as [H|H].
    + apply in_map_iff in H. destruct H as (i & <- & Hi).
      apply in_seq in Hi. cbn. lia.
    + apply Hb in H. cbn. lia.
Qed.

Lemma marks_sorted (parts : list Part) (index : nat) :
  StronglySorted (fun a b => (lc_line a < lc_line b)%nat)
                 (marks sel cls parts index).
Proof.
  revert index. induction parts as [|q parts IH]; intros index; cbn [marks];
    [constructor|].
  destruct (sel q); cbn [app]; [|apply IH].
  apply block_sorted; [apply IH|].
  intros lc H. apply marks_in in H. lia.
Qed.

Lemma marks_block (pre post : list Part) (p : Part) :
  exists h1 h2,
    marks sel cls (pre ++ p :: post) 0
    = h1
      ++ (if sel p
          then map (fun i => mkLineClass i "background" (cls p))
                   (seq (total pre) (count p))
          else [])
      ++ h2
    /\ (forall lc, In lc h1 -> (lc_line lc < total pre)%nat)
    /\ (forall lc, In lc h2 -> (total pre + count p <= lc_line lc)%nat).
Proof.
  exists (marks sel cls pre 0), (marks sel cls post (total pre + count p)).
  split; [|split].
  - rewrite marks_app. cbn [marks]. now rewrite Nat.add_0_l.
  - intros lc H. apply marks_in in H. lia.
  - intros lc H. apply marks_in in H. lia.
Qed.

End Marks.

(** X8: with a diff and an editor instance, [onCodeLeftChange] adds classes
    to lines in strictly increasing order (no line is classed twice),
    all on ['background'] and all below the number of lines of the diff;
    the lines classed for a part are exactly the [count] lines from the
    number of lines of the parts before it, with the part's own class,
    and a part that is not selected adds none.  [onCodeRightChange] does
    the same for the added parts in split mode. *)
Theorem line_classes_follow_the_parts (c : Component) (parts : list Part) :
  diff c = Some parts ->
  (forall doc,
      codeLeft c = Instance doc ->
      exists new,
        onCodeLeftChange c = Returns (set_codeLeft (Instance (doc ++ new)) c)
        /\ StronglySorted line_lt new
        /\ (forall lc, In lc new ->
              lc_where lc = "background"%string
              /\ (lc_line lc < total parts)%nat)
        /\ (forall pre p post,
              parts = pre ++ p :: post ->
              exists h1 h2,
                new = h1
                      ++ (if leftSelected (mode c) p
                          then map (fun i =>
                                      mkLineClass i "background" (leftClass p))
                                   (seq (total pre) (count p))
                          else [])
                      ++ h2
                /\ (forall lc, In lc h1 -> (lc_line lc < total pre)%nat)
                /\ (forall lc, In lc h2 ->
                      (total pre + count p <= lc_line lc)%nat)))
  /\ (forall doc,
        String.eqb (mode c) SPLIT = true ->
        codeRight c = Instance doc ->
        exists new,
          onCodeRightChange c
          = Returns (set_codeRight (Instance (doc ++ new)) c)
          /\ StronglySorted line_lt new
          /\ (forall lc, In lc new ->
                lc_where lc = "background"%string
                /\ lc_class lc = "codeAdded"%string
                /\ (lc_line lc < total parts)%nat)
          /\ (forall pre p post,
                parts = pre ++ p :: post ->
                exists h1 h2,
                  new = h1
                        ++ (if added p
                            then map (fun i =>
                                        mkLineClass i "background" "codeAdded")
                                     (seq (total pre) (count p))
                            else [])
                        ++ h2
                  /\ (forall lc, In lc h1 -> (lc_line lc < total pre)%nat)
                  /\ (forall lc, In lc h2 ->
                        (total pre + count p <= lc_line lc)%nat))).
Proof.
  intros Hd. split.
  - intros doc Hl.
    exists (marks (leftSelected (mode c)) leftClass parts 0).
    split; [unfold onCodeLeftChange; rewrite Hl, Hd;
            now rewrite forEachLeft_marks|].
    split; [apply marks_sorted|]. split.
    + intros lc H. apply marks_in in H. destruct H as (B & W & _).
      split; [exact W | lia].
    + intros pre p post ->. apply marks_block.
  - intros doc Hm Hr.
    exists (marks added (fun _ => "codeAdded"%string) parts 0).
    split; [unfold onCodeRightChange; rewrite Hm, Hr, Hd;
            now rewrite forEachRight_marks|].
    split; [apply marks_sorted|]. split.
    + intros lc H. apply marks_in in H.
      destruct H as (B & W & p & _ & _ & _ & Cl).
      split; [exact W|]. split; [exact Cl | lia].
    + intros pre p post ->. apply marks_block.
Qed.

(** X9: in split mode, when no part is both added and removed: the left
    editor gets the class ['codeRemoved'] only and the right editor
    ['codeAdded'] only, and no line is classed in both editors. *)
Theorem split_panes_mark_different_lines (c : Component) (parts : list Part)
    (docL docR : list LineClass) :
  diff c = Some parts ->
  mode c = SPLIT ->
  codeLeft c = Instance docL ->
  codeRight c = Instance docR ->
  Forall (fun p => added p && removed p = false) parts ->
  exists newL newR,
    onCodeLeftChange c = Returns (set_codeLeft (Instance (docL ++ newL)) c)
    /\ onCodeRightChange c
       = Returns (set_codeRight (Instance (docR ++ newR)) c)
    /\ (forall lc, In lc newL -> lc_class lc = "codeRemoved"%string)
    /\ (forall lc, In lc newR -> lc_class lc = "codeAdded"%string)
    /\ (forall a b, In a newL -> In b newR -> lc_line a <> lc_line b).
Proof.
  intros Hd Hm Hl Hr Hx.
  exists (marks (leftSelected (mode c)) leftClass parts 0),
         (marks added (fun _ => "codeAdded"%string) parts 0).
  rewrite Forall_forall in Hx.
  assert (Sel : forall p, leftSelected (mode c) p = removed p)
    by (intros p; rewrite Hm; reflexivity).
  split; [unfold onCodeLeftChange; rewrite Hl, Hd;
          now rewrite forEachLeft_marks|].
  split; [unfold onCodeRightChange; rewrite Hm, Hr, Hd; cbn;
          now rewrite forEachRight_marks|].
  split; [|split].
  - intros lc H. apply marks_in in H.
    destruct H as (_ & _ & p & _ & Hin & Sp & ->).
    rewrite Sel in Sp. specialize (Hx p Hin). unfold leftClass.
    destruct (added p); [rewrite Sp in Hx; discriminate | reflexivity].
  - intros lc H. apply marks_in in H.
    now destruct H as (_ & _ & p & _ & _ & _ & ->).
  - intros a b Ha Hb E. apply marks_in in Ha, Hb.
    destruct Ha as (_ & _ & p & Pa & Hin & Sp & _).
    destruct Hb as (_ & _ & p' & Pb & _ & Sp' & _).
    rewrite E, Pb in Pa. injection Pa as ->.
    rewrite Sel in Sp. specialize (Hx p Hin).
    rewrite Sp, Sp' in Hx. discriminate.
Qed.

(** Outside split mode the right editor is not looked at, even when it
    is not there; an editor that is not there makes [onCodeLeftChange]
    throw; and a handler that finds an editor instance before any diff
    was computed throws. *)
Lemma handlers_at_the_edges (c : Component) :
  (String.eqb (mode c) SPLIT = false -> onCodeRightChange c = Returns c)
  /\ (codeLeft c = NoChild -> onCodeLeftChange c = Throws TypeError)
  /\ (codeLeft c = NoInstance -> onCodeLeftChange c = Returns c)
  /\ (diff c = None -> forall doc,
        codeLeft c = Instance doc -> onCodeLeftChange c = Throws TypeError).
Proof.
  unfold onCodeRightChange, onCodeLeftChange. repeat split.
  - now intros ->.
  - now intros ->.
  - now intros ->.
  - intros Hd doc ->. now rewrite Hd.
Qed.


(** *** The test diff *)

(** The added part of the test diff, in split mode: its padding starts
    at line 3 of the left content. *)
Lemma part_text_starts_at_its_line_witness :
  let pre := [mkPart ("a" ++ nl ++ "b" ++ nl) 2 false false;
              mkPart ("c" ++ nl) 1 false true]%string in
  let p := mkPart ("C" ++ nl ++ "D" ++ nl)%string 2 true false in
  Forall (fun q => newlines (value q) = count q) pre
  /\ exists before after,
       contentLeft (sample_refreshed SPLIT)
       = Some (before ++ (nl ++ nl) ++ after)%string
       /\ newlines before = 3%nat.
Proof.
  intros pre p.
  assert (Hpre : Forall (fun q => newlines (value q) = count q) pre)
    by (repeat constructor).
  split; [exact Hpre|].
  destruct (@part_text_starts_at_its_line sample_diffLines no_json
              (sample_component SPLIT) pre
              [mkPart ("e" ++ nl)%string 1 false false] p eq_refl Hpre)
    as (_ & _ & S).
  destruct (S eq_refl) as ((before & after & E & N) & _).
  exists before, after. split; [exact E | exact N].
Defined.

Lemma line_classes_follow_the_parts_witness :
  exists new,
    onCodeLeftChange (sample_refreshed UNIFIED)
    = Returns (set_codeLeft (Instance ([] ++ new)) (sample_refreshed UNIFIED))
    /\ StronglySorted line_lt new
    /\ map lc_line new = [2; 3; 4]%nat.
Proof.
  destruct (@line_classes_follow_the_parts (sample_refreshed UNIFIED) sample
              eq_refl) as (H & _).
  destruct (H [] eq_refl) as (new & E & S & _).
  exists new. split; [exact E|]. split; [exact S|].
  vm_compute in E. injection E as E. rewrite <- E. reflexivity.
Defined.

Lemma split_panes_mark_different_lines_witness :
  exists newL newR,
    onCodeLeftChange (sample_refreshed SPLIT)
    = Returns (set_codeLeft (Instance ([] ++ newL)) (sample_refreshed SPLIT))
    /\ onCodeRightChange (sample_refreshed SPLIT)
       = Returns (set_codeRight (Instance ([] ++ newR))
                                (sample_refreshed SPLIT))
    /\ (forall a b, In a newL -> In b newR -> lc_line a <> lc_line b).
Proof.
  destruct (@split_panes_mark_different_lines (sample_refreshed SPLIT) sample
              [] [] eq_refl eq_refl eq_refl eq_refl)
    as (newL & newR & EL & ER & _ & _ & Dj).
  - repeat constructor.
  - exists newL, newR. auto.
Defined.

(** The test diff in both modes: the contents and the classed lines. *)
Example sample_views :
  contentLeft (sample_refreshed SPLIT)
  = Some ("a" ++ nl ++ "b" ++ nl ++ "c" ++ nl ++ nl ++ nl ++ "e" ++ nl)%string
  /\ contentRight (sample_refreshed SPLIT)
     = Some ("a" ++ nl ++ "b" ++ nl ++ nl ++ "C" ++ nl ++ "D" ++ nl
             ++ "e" ++ nl)%string
  /\ onCodeLeftChange (sample_refreshed SPLIT)
     = Returns (set_codeLeft
                  (Instance [mkLineClass 2 "background" "codeRemoved"])
                  (sample_refreshed SPLIT))
  /\ onCodeRightChange (sample_refreshed SPLIT)
     = Returns (set_codeRight
                  (Instance [mkLineClass 3 "background" "codeAdded";
                             mkLineClass 4 "background" "codeAdded"])
                  (sample_refreshed SPLIT))
  /\ onCodeLeftChange (sample_refreshed UNIFIED)
     = Returns (set_codeLeft
                  (Instance [mkLineClass 2 "background" "codeRemoved";
                             mkLineClass 3 "background" "codeAdded";
                             mkLineClass 4 "background" "codeAdded"])
                  (sample_refreshed UNIFIED))
  /\ contentRight (sample_refreshed UNIFIED) = None.
Proof. vm_compute. repeat split. Qed.

End DiffItemFacts.
